(** * The osquery virtual-table adapter ([osquery/core/virtual_table.h])

    A shallow embedding of the SQLite virtual-table callbacks that osquery
    instantiates for every table plugin: [xCreate], [xBestIndex], [xFilter],
    [xEof], [xColumn], together with the data they work on, and the
    properties of the adapter stated over them.

    Conventions.
    - A C [int] is a [Z]; [is_int] states the 32-bit range.  Where the source
      compares an [int] with a [size_t] the conversion to the unsigned 64-bit
      type is written out ([size_t_of_int]).
    - A [std::string] is a [string] and may hold any byte; where the source
      hands [s.c_str()] to the engine as a NUL-terminated string, the engine
      sees the characters before the first NUL ([c_str]).
    - A [std::map<std::string, V>] is a [gmap string V]; [operator[]] on a
      missing key yields (and stores) the default value of [V].
    - A [std::vector] is a [list]; [operator[]] past the end, a null pointer
      handed to [std::string] and signed overflow have no defined behaviour
      in C++ and are the outcome [UB].  So is an exception that leaves a
      callback: the callback returns no code to the C frames of the engine
      that called it. *)

From Stdlib Require Import Ascii String.
From stdpp Require Import gmap strings list fin_maps.

Open Scope Z_scope.

(** ** Outcomes of a callback *)

Inductive outcome (A : Type) : Type :=
  | Returned (a : A)
  | UB.
Arguments Returned {A} a.
Arguments UB {A}.

#[global] Instance outcome_ret : MRet outcome := λ A a, Returned a.
#[global] Instance outcome_bind : MBind outcome := λ A B f m,
  match m with
  | Returned a => f a
  | UB => UB
  end.

(** ** Machine integers *)

Definition INT_MAX : Z := 2147483647.
Definition INT_MIN : Z := -2147483648.
Definition LLONG_MAX : Z := 9223372036854775807.
Definition LLONG_MIN : Z := -9223372036854775808.

Definition is_int (z : Z) : Prop := INT_MIN ≤ z ≤ INT_MAX.

(** Conversion of an [int] operand to [size_t] (usual arithmetic
    conversions on an LP64 target). *)
Definition size_t_of_int (z : Z) : Z := z `mod` 2 ^ 64.

(** [++i] on an [int]. *)
Definition int_incr (z : Z) : outcome Z :=
  if decide (z < INT_MAX) then Returned (z + 1) else UB.

(** [v[i]] for a [size_t] index. *)
Definition vector_at {A} (v : list A) (i : Z) : outcome A :=
  if decide (0 ≤ i < Z.of_nat (length v)) then
    match v !! Z.to_nat i with
    | Some a => Returned a
    | None => UB
    end
  else UB.

(** The value a [std::map] stores for a key that [operator[]] creates. *)
Class ValueInit (V : Type) := value_init : V.
#[global] Instance string_init : ValueInit string := ""%string.
#[global] Instance vector_init {A} : ValueInit (list A) := [].

(** [m[k]] read access and [m[k] = f (m[k])] on a [std::map]. *)
Definition subscript `{ValueInit V} (m : gmap string V) (k : string) : V :=
  default value_init (m !! k).

Definition at_subscript `{ValueInit V} (f : V → V) (m : gmap string V)
    (k : string) : gmap string V :=
  <[k := f (subscript m k)]> m.

(** ** C strings *)

Definition NUL : ascii := "000"%char.

(** [s.c_str()] read as a NUL-terminated string (a length of -1 in
    [sqlite3_result_text]): the characters before the first NUL. *)
Fixpoint c_str (s : string) : string :=
  match s with
  | EmptyString => EmptyString
  | String c s' => if decide (c = NUL) then EmptyString else String c (c_str s')
  end.

(** Whether the string holds a NUL. *)
Fixpoint has_nul (s : string) : bool :=
  match s with
  | EmptyString => false
  | String c s' => if decide (c = NUL) then true else has_nul s'
  end.

(** ** The engine's interface ([sqlite3.h]) *)

Module Sqlite3.

Definition SQLITE_OK : Z := 0.
Definition SQLITE_ERROR : Z := 1.
Definition SQLITE_NOMEM : Z := 7.

(** One entry of [sqlite3_index_info.aConstraint]. *)
Record index_constraint := {
  iColumn : Z;
  op : Z;
  usable : bool;
}.

(** One entry of [sqlite3_index_info.aConstraintUsage]. *)
Record index_constraint_usage := {
  argvIndex : Z;
}.

(** [aConstraint] and [aConstraintUsage] are parallel arrays of
    [nConstraint] entries: entry [i] of the one is paired with entry [i]
    of the other. *)
Abbreviation sqlite3_index_info :=
  (list (index_constraint * index_constraint_usage)).

(** What a callback hands to the engine through [sqlite3_result_text],
    [sqlite3_result_int] and [sqlite3_result_int64]; [result_text]
    carries the text as the engine sees it. *)
Inductive sqlite3_result :=
  | result_text (z : string)
  | result_int (v : Z)
  | result_int64 (v : Z).

(** An argument of [xFilter] as [sqlite3_value_text] shows it: the text
    of the value, or the null pointer for SQL NULL. *)
Abbreviation sqlite3_value := (option string).

End Sqlite3.
Import Sqlite3.

(** ** Strict numeric parse *)

Module Lexical.

Definition digit_of (c : ascii) : option Z :=
  let k := Z.of_nat (nat_of_ascii c) in
  if decide (48 ≤ k ≤ 57) then Some (k - 48) else None.

(** Value of a run of decimal digits, most significant first. *)
Fixpoint digits (acc : Z) (s : string) : option Z :=
  match s with
  | EmptyString => Some acc
  | String c s' =>
      match digit_of c with
      | Some d => digits (10 * acc + d) s'
      | None => None
      end
  end.

Definition unsigned (s : string) : option Z :=
  match s with
  | EmptyString => None
  | _ => digits 0 s
  end.

(** Modelled from the spec: the strict numeric parse of the value
    coercion, which the source obtains from [boost::lexical_cast] (an
    external library, not part of the repository).  The whole string
    must be an optional sign followed by at least one decimal digit, and
    the value must fit the signed target type with bounds [lo] and [hi];
    anything else is [bad_lexical_cast] ([None]). *)
Definition lexical_cast (lo hi : Z) (s : string) : option Z :=
  match s with
  | EmptyString => None
  | String c s' =>
      if decide (c = "-"%char) then
        match unsigned s' with
        | Some m => if decide (lo ≤ - m) then Some (- m) else None
        | None => None
        end
      else
        match unsigned (if decide (c = "+"%char) then s' else s) with
        | Some m => if decide (m ≤ hi) then Some m else None
        | None => None
        end
  end.

Definition lexical_cast_int : string → option Z :=
  lexical_cast INT_MIN INT_MAX.
Definition lexical_cast_long_long : string → option Z :=
  lexical_cast LLONG_MIN LLONG_MAX.

End Lexical.
Import Lexical.

(** ** Constraints and the pushdown request ([osquery/tables.h]) *)

(** Modelled from the spec: a Constraint is an operator together with a
    literal expression that is filled in at execution time; it is built
    from the operator alone. *)
Record Constraint := {
  op : Z;
  expr : string;
}.

Definition mkConstraint (o : Z) : Constraint := {| op := o; expr := "" |}.

Definition set_expr (e : string) (c : Constraint) : Constraint :=
  {| op := op c; expr := e |}.

(** Modelled from the spec: the ConstraintSet is the ordered sequence of
    (column name, Constraint) pairs, in negotiation order. *)
Abbreviation ConstraintSet := (list (string * Constraint)).

(** Modelled from the spec: per column, the QueryContext carries the
    declared affinity and the constraints that apply to the column; [add]
    appends one. *)
Record ConstraintList := {
  affinity : string;
  constraints_ : list Constraint;
}.

#[global] Instance ConstraintList_init : ValueInit ConstraintList :=
  {| affinity := ""; constraints_ := [] |}.

Definition set_affinity (a : string) (l : ConstraintList) : ConstraintList :=
  {| affinity := a; constraints_ := constraints_ l |}.

Definition add (c : Constraint) (l : ConstraintList) : ConstraintList :=
  {| affinity := affinity l; constraints_ := constraints_ l ++ [c] |}.

Record QueryContext := {
  request_constraints : gmap string ConstraintList;
}.

(** ** Tables *)

(** A generated row: column name to value. *)
Abbreviation Row := (gmap string string).

(** [struct osquery_table]. *)
Record osquery_table := {
  n : Z;
  columns : gmap string (list string);
  constraints : ConstraintSet;
}.

(** What the template parameter [T] adds to [osquery_table]: the schema
    and the row generator of the plugin.  [generate] is a function of the
    request: what a plugin reads from its surroundings is fixed for the
    calls compared here. *)
Record TablePluginT := {
  name : string;
  types : list string;
  column_names : list string;
  generate : QueryContext → list Row;
}.

(** [struct base_cursor]. *)
Record base_cursor := {
  row : Z;
}.

(** [struct x_vtab<T>]. *)
Record x_vtab := {
  pContent : osquery_table;
}.

(** ** xEof *)

Definition xEof (pCur : base_cursor) (pContent : osquery_table) : Z :=
  if decide (n pContent ≤ row pCur) then 1 else 0.

(** Modelled from the spec: [xNext] is only declared in the header;
    "advances cursor position by one", without a bounds check. *)
Definition xNext (pCur : base_cursor) : Z * base_cursor :=
  (SQLITE_OK, {| row := row pCur + 1 |}).

(** ** xColumn *)

(** What one call of [xColumn] leaves behind: the return code, the value
    handed to the engine (if any), and the warnings logged. *)
Record column_read := {
  rc : Z;
  result : option sqlite3_result;
  diagnostics : list string;
}.

Definition cast_warning (column_name value type : string) : string :=
  "Error casting " +:+ column_name +:+ " (" +:+ value +:+ ") to " +:+ type.

(** The three branches on the declared type.  The TEXT branch hands over
    [value.c_str()] with length -1; the numeric branches parse the whole
    [std::string], and the warning prints the whole [std::string]. *)
Definition coerce (type column_name value : string)
    : option sqlite3_result * list string :=
  if decide (type = "TEXT"%string) then
    (Some (result_text (c_str value)), [])
  else if decide (type = "INTEGER"%string) then
    match lexical_cast_int value with
    | Some afinite => (Some (result_int afinite), [])
    | None => (Some (result_int (-1)), [cast_warning column_name value "INTEGER"])
    end
  else if decide (type = "BIGINT"%string) then
    match lexical_cast_long_long value with
    | Some afinite => (Some (result_int64 afinite), [])
    | None => (Some (result_int64 (-1)), [cast_warning column_name value "BIGINT"])
    end
  else (None, []).

Definition set_columns (cols : gmap string (list string)) (t : osquery_table)
    : osquery_table :=
  {| n := n t; columns := cols; constraints := constraints t |}.

Definition xColumn (T : TablePluginT) (pCur : base_cursor)
    (pContent : osquery_table) (col : Z)
    : outcome (column_read * osquery_table) :=
  if decide (Z.of_nat (length (column_names T)) ≤ size_t_of_int col) then
    Returned ({| rc := SQLITE_ERROR; result := None; diagnostics := [] |},
              pContent)
  else
    column_name ← vector_at (column_names T) (size_t_of_int col);
    type ← vector_at (types T) (size_t_of_int col);
    let pContent' :=
      set_columns (at_subscript id (columns pContent) column_name) pContent in
    let column := subscript (columns pContent') column_name in
    if decide (Z.of_nat (length column) ≤ size_t_of_int (row pCur)) then
      Returned ({| rc := SQLITE_ERROR; result := None; diagnostics := [] |},
                pContent')
    else
      value ← vector_at column (size_t_of_int (row pCur));
      let '(res, log) := coerce type column_name value in
      Returned ({| rc := SQLITE_OK; result := res; diagnostics := log |},
                pContent').

(** ** xBestIndex *)

Definition set_constraints (cs : ConstraintSet) (t : osquery_table)
    : osquery_table :=
  {| n := n t; columns := columns t; constraints := cs |}.

(** The loop over [pIdxInfo->aConstraint]; [expr_index] is the local
    counter and [cs] is [pContent->constraints]. *)
Fixpoint xBestIndex_loop (T : TablePluginT) (pIdxInfo : sqlite3_index_info)
    (expr_index : Z) (cs : ConstraintSet)
    : outcome (sqlite3_index_info * ConstraintSet) :=
  match pIdxInfo with
  | [] => Returned ([], cs)
  | (c, u) :: rest =>
      if usable c then
        name ← vector_at (column_names T) (size_t_of_int (iColumn c));
        '(rest', cs') ←
          xBestIndex_loop T rest (expr_index + 1)
            (cs ++ [(name, mkConstraint (Sqlite3.op c))]);
        mret ((c, {| argvIndex := expr_index + 1 |}) :: rest', cs')
      else
        '(rest', cs') ← xBestIndex_loop T rest expr_index cs;
        mret ((c, u) :: rest', cs')
  end.

Definition xBestIndex (T : TablePluginT) (pContent : osquery_table)
    (pIdxInfo : sqlite3_index_info)
    : outcome (Z * sqlite3_index_info * osquery_table) :=
  '(info, cs) ← xBestIndex_loop T pIdxInfo 0 (constraints pContent);
  mret (SQLITE_OK, info, set_constraints cs pContent).

(** ** xFilter *)

(** First loop: clear the buffer of every declared column and record the
    affinity of the column in the request. [i] is the loop index. *)
Fixpoint xFilter_clear (T : TablePluginT) (names : list string) (i : nat)
    (cols : gmap string (list string)) (req : gmap string ConstraintList)
    : outcome (gmap string (list string) * gmap string ConstraintList) :=
  match names with
  | [] => Returned (cols, req)
  | column_name :: rest =>
      type ← vector_at (types T) (Z.of_nat i);
      xFilter_clear T rest (S i)
        (at_subscript (λ _, []) cols column_name)
        (at_subscript (set_affinity type) req column_name)
  end.

(** Second loop: write argument [i] into constraint [i] and add the
    constraint to the request under its column.  [argc] is the length of
    [argv]. *)
Fixpoint xFilter_bind (argv : list sqlite3_value) (i : nat)
    (cs : ConstraintSet) (req : gmap string ConstraintList)
    : outcome (ConstraintSet * gmap string ConstraintList) :=
  match argv with
  | [] => Returned (cs, req)
  | v :: rest =>
      expr ← match v with Some e => Returned e | None => UB end;
      '(column, c) ← vector_at cs (Z.of_nat i);
      let c' := set_expr expr c in
      xFilter_bind rest (S i) (<[i := (column, c')]> cs)
        (at_subscript (add c') req column)
  end.

(** The request handed to [generate], with the ConstraintSet as the
    binding leaves it. *)
Definition xFilter_request (T : TablePluginT) (pContent : osquery_table)
    (argv : list sqlite3_value)
    : outcome (gmap string (list string) * ConstraintSet * QueryContext) :=
  '(cols, req) ← xFilter_clear T (column_names T) 0 (columns pContent) ∅;
  '(cs, req') ← xFilter_bind argv 0 (constraints pContent) req;
  mret (cols, cs, {| request_constraints := req' |}).

(** Third loop, inner part: one generated row goes to the end of every
    declared column. *)
Definition push_row (names : list string) (r : Row)
    (cols : gmap string (list string)) : gmap string (list string) :=
  foldl (λ cols column_name,
           at_subscript (λ v, v ++ [subscript r column_name]) cols column_name)
        cols names.

Fixpoint xFilter_fill (names : list string) (rows : list Row)
    (cols : gmap string (list string)) (count : Z)
    : outcome (gmap string (list string) * Z) :=
  match rows with
  | [] => Returned (cols, count)
  | r :: rest =>
      count' ← int_incr count;
      xFilter_fill names rest (push_row names r cols) count'
  end.

Definition set_n (count : Z) (t : osquery_table) : osquery_table :=
  {| n := count; columns := columns t; constraints := constraints t |}.

Definition xFilter (T : TablePluginT) (pCur : base_cursor)
    (pContent : osquery_table) (argv : list sqlite3_value)
    : outcome (Z * base_cursor * osquery_table) :=
  let pCur := {| row := 0 |} in
  let pContent := set_n 0 pContent in
  '(cols, cs, request) ← xFilter_request T pContent argv;
  '(cols', count) ←
    xFilter_fill (column_names T) (generate T request) cols (n pContent);
  mret (SQLITE_OK, pCur,
        {| n := count; columns := cols'; constraints := cs |}).

(** ** xCreate *)

(** What the surroundings decide during one call of [xCreate]: whether
    each [new] finds memory, the indeterminate [n] of a new [T] (the
    constructor of [osquery_table] leaves it unset), the rendered
    statement and the answer of [sqlite3_declare_vtab]. *)
Record create_env := {
  new_x_vtab : bool;
  new_T : option Z;
  statement : string → list string → list string → string;
  sqlite3_declare_vtab : string → Z;
}.

(** What one call of [xCreate] leaves behind: the return code, [*ppVtab]
    ([None]: not written) and the number of objects it allocated that are
    still allocated. *)
Record create_result := {
  create_rc : Z;
  ppVtab : option x_vtab;
  live_objects : nat;
}.

(** Both allocations are plain [new]: one that finds no memory throws
    [std::bad_alloc], which leaves the callback without a return code
    ([UB]), and never yields the null pointer, so the test [if (!pVtab)]
    with its [return SQLITE_NOMEM] is never taken. *)
Definition xCreate (T : TablePluginT) (env : create_env)
    : outcome create_result :=
  if new_x_vtab env then
    match new_T env with
    | Some n0 =>
        let pContent := {| n := n0; columns := ∅; constraints := [] |} in
        let create := statement env (name T) (types T) (column_names T) in
        let rc := sqlite3_declare_vtab env create in
        Returned {| create_rc := rc;
                    ppVtab := Some {| pContent := pContent |};
                    live_objects := 2 |}
    | None => UB
    end
  else UB.

(** ** The engine's iteration *)

(** The engine reads the columns [cols] of the current row. *)
Fixpoint read_columns (T : TablePluginT) (pCur : base_cursor)
    (pContent : osquery_table) (cols : list nat)
    : outcome (list column_read * osquery_table) :=
  match cols with
  | [] => Returned ([], pContent)
  | col :: rest =>
      '(r, pContent') ← xColumn T pCur pContent (Z.of_nat col);
      '(rs, pContent'') ← read_columns T pCur pContent' rest;
      mret (r :: rs, pContent'')
  end.

(** The engine's loop after [xFilter]: while [xEof] is false, read every
    declared column, then [xNext].  [None]: the fuel ran out. *)
Fixpoint scan (fuel : nat) (T : TablePluginT) (pCur : base_cursor)
    (pContent : osquery_table) : option (outcome (list (list column_read))) :=
  match fuel with
  | O => None
  | S fuel' =>
      if decide (xEof pCur pContent = 0) then
        match read_columns T pCur pContent
                (seq 0 (length (column_names T))) with
        | Returned (r, pContent') =>
            match scan fuel' T (xNext pCur).2 pContent' with
            | Some (Returned rs) => Some (Returned (r :: rs))
            | other => other
            end
        | UB => Some UB
        end
      else Some (Returned [])
  end.

(** ** A sample plugin

    A table with one column of each declared type; [generate] returns two
    rows, the second of which has a malformed INTEGER value and lacks the
    BIGINT column. *)

Module Sample.

Open Scope string_scope.

Definition rows : list Row :=
  [ {[ "path" := "/bin/sh"; "pid" := "42"; "size" := "9999999999" ]};
    {[ "path" := ""; "pid" := "abc"; "ppid" := "1" ]} ].

Definition T : TablePluginT :=
  {| name := "sample";
     types := ["TEXT"; "INTEGER"; "BIGINT"];
     column_names := ["path"; "pid"; "size"];
     generate := λ _, rows |}.

(** The content of a newly created adapter instance ([n] holds whatever
    the allocation left there). *)
Definition created : osquery_table :=
  {| n := 77; columns := ∅; constraints := [] |}.

Definition cursor : base_cursor := {| row := 0 |}.

Definition SQLITE_INDEX_CONSTRAINT_EQ : Z := 2.
Definition SQLITE_INDEX_CONSTRAINT_GT : Z := 4.

Definition candidate (col o : Z) (u : bool)
    : index_constraint * index_constraint_usage :=
  ({| iColumn := col; Sqlite3.op := o; usable := u |}, {| argvIndex := 0 |}).

(** The content after [xFilter] without arguments. *)
Definition filtered : osquery_table :=
  {| n := 2;
     columns := {[ "path" := ["/bin/sh"; ""];
                   "pid" := ["42"; "abc"];
                   "size" := ["9999999999"; ""] ]};
     constraints := [] |}.

(** The content after a negotiation and an execution for
    [path = '/bin/sh']. *)
Definition negotiated : osquery_table :=
  {| n := 2;
     columns := columns filtered;
     constraints :=
       [("path", {| op := SQLITE_INDEX_CONSTRAINT_EQ; expr := "/bin/sh" |})] |}.

Definition env (declare_rc : Z) : create_env :=
  {| new_x_vtab := true;
     new_T := Some 77;
     statement := λ name _ _, "CREATE TABLE " +:+ name;
     sqlite3_declare_vtab := λ _, declare_rc |}.

(** The content after a second negotiation and execution, for
    [pid > 5]. *)
Definition renegotiated : osquery_table :=
  {| n := 2;
     columns := columns filtered;
     constraints :=
       [("path", {| op := SQLITE_INDEX_CONSTRAINT_EQ; expr := "5" |});
        ("pid", {| op := SQLITE_INDEX_CONSTRAINT_GT; expr := "" |})] |}.

(** A plugin whose generated text holds a NUL byte, and the content of
    an instance of it after [xFilter]. *)
Definition nul_value : string :=
  String "4"%char (String NUL (String "2"%char EmptyString)).

Definition binary : TablePluginT :=
  {| name := "binary";
     types := ["TEXT"];
     column_names := ["path"];
     generate := λ _, [ {[ "path" := nul_value ]} ] |}.

Definition binary_filtered : osquery_table :=
  {| n := 1;
     columns := {[ "path" := [nul_value] ]};
     constraints := [] |}.

(** A plugin that declares one column name twice, and one whose type
    names are not the ones [xColumn] compares with. *)
Definition repeated : TablePluginT :=
  {| name := "repeated";
     types := ["INTEGER"; "INTEGER"];
     column_names := ["pid"; "pid"];
     generate := λ _, rows |}.

(** The content of an instance of [repeated] after [xFilter]. *)
Definition repeated_filtered : osquery_table :=
  {| n := 2;
     columns := {[ "pid" := ["42"; "42"; "abc"; "abc"] ]};
     constraints := [] |}.

Definition lowercase : TablePluginT :=
  {| name := "lowercase";
     types := ["text"; "DOUBLE"; "BIGINT"];
     column_names := ["path"; "pid"; "size"];
     generate := λ _, rows |}.

End Sample.

(** ** Specification functions

    Closed forms of what the loops of the callbacks compute; the lemmas
    below relate each of them to the callback it describes. *)

(** The read that [xColumn] performs when both bounds checks pass. *)
Definition read_of (type column_name value : string) : column_read :=
  {| rc := SQLITE_OK;
     result := (coerce type column_name value).1;
     diagnostics := (coerce type column_name value).2 |}.

(** A usable candidate whose column index, read as a [size_t], is not an
    index of [column_names]. *)
Definition unchecked (T : TablePluginT)
    (p : index_constraint * index_constraint_usage) : Prop :=
  usable p.1 = true ∧
  ¬ (0 ≤ size_t_of_int (iColumn p.1) < Z.of_nat (length (column_names T))).

(** The candidates the negotiation accepts, in the order offered. *)
Definition accepted (pIdxInfo : sqlite3_index_info) : list index_constraint :=
  filter (λ c : index_constraint, usable c = true) (pIdxInfo.*1).

Definition column_of (T : TablePluginT) (c : index_constraint) : string :=
  default ""%string (column_names T !! Z.to_nat (iColumn c)).

(** The (column name, Constraint{operator}) pairs of the accepted
    candidates. *)
Definition proposed (T : TablePluginT) (pIdxInfo : sqlite3_index_info)
    : ConstraintSet :=
  (λ c, (column_of T c, mkConstraint (Sqlite3.op c))) <$> accepted pIdxInfo.

(** The candidate's column index is an index of the schema. *)
Definition in_schema (T : TablePluginT)
    (p : index_constraint * index_constraint_usage) : Prop :=
  usable p.1 = true →
  is_int (iColumn p.1) ∧
  0 ≤ iColumn p.1 < Z.of_nat (length (column_names T)).

(** The usage array as the loop leaves it when the counter enters with
    value [expr_index]. *)
Fixpoint positions (expr_index : Z) (pIdxInfo : sqlite3_index_info)
    : sqlite3_index_info :=
  match pIdxInfo with
  | [] => []
  | (c, u) :: rest =>
      if usable c then
        (c, {| argvIndex := expr_index + 1 |}) :: positions (expr_index + 1) rest
      else (c, u) :: positions expr_index rest
  end.

(** The ConstraintSet after the literals [lits] are written into its
    leading entries. *)
Fixpoint bound (cs : ConstraintSet) (lits : list string) : ConstraintSet :=
  match cs, lits with
  | (column, c) :: cs', e :: lits' => (column, set_expr e c) :: bound cs' lits'
  | _, _ => cs
  end.

Definition add_all (req : gmap string ConstraintList) (l : ConstraintSet)
    : gmap string ConstraintList :=
  foldl (λ req p, at_subscript (add p.2) req p.1) req l.

Definition clear_all (names : list string) (cols : gmap string (list string))
    : gmap string (list string) :=
  foldl (λ cols column_name, at_subscript (λ _, []) cols column_name) cols names.

Definition set_affinities (names tys : list string)
    (req : gmap string ConstraintList) : gmap string ConstraintList :=
  foldl (λ req p, at_subscript (set_affinity p.2) req p.1) req (zip names tys).

Definition fill_all (names : list string) (rows : list Row)
    (cols : gmap string (list string)) : gmap string (list string) :=
  foldl (λ cols r, push_row names r cols) cols rows.

(** The request [xFilter] builds from the ConstraintSet [cs] and the
    literals [lits], and the content it leaves. *)
Definition request_of (T : TablePluginT) (cs : ConstraintSet)
    (lits : list string) : QueryContext :=
  {| request_constraints :=
       add_all (set_affinities (column_names T) (types T) ∅)
         (take (length lits) (bound cs lits)) |}.

Definition filtered_content (T : TablePluginT) (pContent : osquery_table)
    (lits : list string) : osquery_table :=
  let rows := generate T (request_of T (constraints pContent) lits) in
  {| n := Z.of_nat (length rows);
     columns :=
       fill_all (column_names T) rows
         (clear_all (column_names T) (columns pContent));
     constraints := bound (constraints pContent) lits |}.

(** The reads of one generated row, column by column. *)
Definition expected_row (T : TablePluginT) (r : Row) : list column_read :=
  zip_with (λ column_name type,
              read_of type column_name (subscript r column_name))
    (column_names T) (types T).

(** How often the name [c] is declared. *)
Definition multiplicity (c : string) (names : list string) : nat :=
  length (filter (λ x, x = c) names).

(** What [xColumn] answers when a bounds check fails. *)
Definition bounds_error : column_read :=
  {| rc := SQLITE_ERROR; result := None; diagnostics := [] |}.

(** * Properties *)

(** ** Integers and vectors *)

(** Range side conditions on concrete integers. *)
Ltac int_range := unfold is_int, INT_MIN, INT_MAX in *; simpl; lia.

Lemma size_t_of_int_small (z : Z) :
  0 ≤ z → is_int z → size_t_of_int z = z.
Proof.
  intros Hz [_ Hmax]. unfold size_t_of_int, INT_MAX in *.
  apply Z.mod_small. lia.
Qed.

Lemma size_t_of_int_negative (z : Z) :
  z < 0 → is_int z → size_t_of_int z = z + 2 ^ 64.
Proof.
  intros Hz [Hmin _]. unfold size_t_of_int, INT_MIN in *.
  symmetry. apply (Z.mod_unique_pos z (2 ^ 64) (-1)); lia.
Qed.

Lemma vector_at_Returned {A} (v : list A) (i : Z) (a : A) :
  0 ≤ i → v !! Z.to_nat i = Some a → vector_at v i = Returned a.
Proof.
  intros Hi Hl. unfold vector_at.
  pose proof (lookup_lt_Some _ _ _ Hl).
  rewrite decide_True by lia. by rewrite Hl.
Qed.

Lemma vector_at_nat {A} (v : list A) (i : nat) (a : A) :
  v !! i = Some a → vector_at v (Z.of_nat i) = Returned a.
Proof.
  intros Hl. apply vector_at_Returned; [lia|]. by rewrite Nat2Z.id.
Qed.

Lemma vector_at_UB {A} (v : list A) (i : Z) :
  ¬ (0 ≤ i < Z.of_nat (length v)) → vector_at v i = UB.
Proof. intros Hi. unfold vector_at. by rewrite decide_False. Qed.

Lemma vector_at_inv {A} (v : list A) (i : Z) (a : A) :
  vector_at v i = Returned a →
  0 ≤ i < Z.of_nat (length v) ∧ v !! Z.to_nat i = Some a.
Proof.
  unfold vector_at. case_decide; [|done].
  destruct (v !! Z.to_nat i) eqn:E; [|done]. intros [= ->]. done.
Qed.

(** ** Maps *)

Lemma subscript_Some `{ValueInit V} (m : gmap string V) (k : string) (v : V) :
  m !! k = Some v → subscript m k = v.
Proof. unfold subscript. by intros ->. Qed.

Lemma subscript_None `{ValueInit V} (m : gmap string V) (k : string) :
  m !! k = None → subscript m k = value_init.
Proof. unfold subscript. by intros ->. Qed.

Lemma lookup_at_subscript `{ValueInit V} (f : V → V) (m : gmap string V)
    (k k' : string) :
  at_subscript f m k !! k' =
    if decide (k = k') then Some (f (subscript m k)) else m !! k'.
Proof. unfold at_subscript. apply lookup_insert. Qed.

Lemma subscript_at_subscript_ne `{ValueInit V} (f : V → V)
    (m : gmap string V) (k k' : string) :
  k ≠ k' → subscript (at_subscript f m k) k' = subscript m k'.
Proof.
  intros Hne. unfold subscript. rewrite lookup_at_subscript.
  by rewrite decide_False.
Qed.

Lemma subscript_at_subscript_eq `{ValueInit V} (f : V → V)
    (m : gmap string V) (k : string) :
  subscript (at_subscript f m k) k = f (subscript m k).
Proof.
  unfold subscript at 1. rewrite lookup_at_subscript.
  by rewrite decide_True.
Qed.

Lemma at_subscript_id_present `{ValueInit V} (m : gmap string V) (k : string) :
  is_Some (m !! k) → at_subscript id m k = m.
Proof.
  intros [v Hv]. unfold at_subscript.
  rewrite (subscript_Some _ _ _ Hv). by apply insert_id.
Qed.

Lemma set_columns_same (t : osquery_table) : set_columns (columns t) t = t.
Proof. by destruct t. Qed.

(** ** The shape of [xFilter] *)

Lemma xFilter_unfold (T : TablePluginT) (pCur : base_cursor)
    (pContent : osquery_table) (argv : list sqlite3_value) :
  xFilter T pCur pContent argv =
    '(cols, cs, request) ← xFilter_request T pContent argv;
    '(cols', count) ←
      xFilter_fill (column_names T) (generate T request) cols 0;
    mret (SQLITE_OK, {| row := 0 |},
          {| n := count; columns := cols'; constraints := cs |}).
Proof. reflexivity. Qed.

(** ** Reading a column *)

Lemma xColumn_column_out_of_range (T : TablePluginT) (pCur : base_cursor)
    (pContent : osquery_table) (col : Z) :
  is_int col →
  Z.of_nat (length (column_names T)) ≤ col →
  xColumn T pCur pContent col =
    Returned ({| rc := SQLITE_ERROR; result := None; diagnostics := [] |},
              pContent).
Proof.
  intros Hint Hcol. unfold xColumn.
  rewrite size_t_of_int_small by (done || lia).
  by rewrite decide_True.
Qed.

(** A negative index is a very large [size_t]: the first check rejects it
    as well. *)
Lemma xColumn_negative_column (T : TablePluginT) (pCur : base_cursor)
    (pContent : osquery_table) (col : Z) :
  is_int col → col < 0 →
  Z.of_nat (length (column_names T)) ≤ INT_MAX →
  xColumn T pCur pContent col =
    Returned ({| rc := SQLITE_ERROR; result := None; diagnostics := [] |},
              pContent).
Proof.
  intros Hint Hcol Hlen. unfold xColumn.
  rewrite size_t_of_int_negative by done.
  destruct Hint as [Hmin _]. unfold INT_MIN, INT_MAX in *.
  rewrite decide_True by lia. done.
Qed.

Lemma xColumn_in_range (T : TablePluginT) (pCur : base_cursor)
    (pContent : osquery_table) (col : Z) (column_name type : string) :
  is_int col → is_int (row pCur) → 0 ≤ col → 0 ≤ row pCur →
  column_names T !! Z.to_nat col = Some column_name →
  types T !! Z.to_nat col = Some type →
  xColumn T pCur pContent col =
    let pContent' :=
      set_columns (at_subscript id (columns pContent) column_name) pContent in
    match subscript (columns pContent) column_name !! Z.to_nat (row pCur) with
    | Some value => Returned (read_of type column_name value, pContent')
    | None =>
        Returned ({| rc := SQLITE_ERROR; result := None; diagnostics := [] |},
                  pContent')
    end.
Proof.
  intros Hcol Hrow Hcol0 Hrow0 Hname Htype. unfold xColumn.
  rewrite !size_t_of_int_small by done.
  pose proof (lookup_lt_Some _ _ _ Hname).
  rewrite decide_False by lia.
  rewrite (vector_at_Returned _ _ _ Hcol0 Hname).
  rewrite (vector_at_Returned _ _ _ Hcol0 Htype). simpl.
  rewrite subscript_at_subscript_eq. unfold id.
  destruct (subscript (columns pContent) column_name
              !! Z.to_nat (row pCur)) as [value|] eqn:Hvalue.
  - pose proof (lookup_lt_Some _ _ _ Hvalue).
    rewrite decide_False by lia.
    rewrite (vector_at_Returned _ _ _ Hrow0 Hvalue). simpl.
    unfold read_of. by destruct (coerce type column_name value).
  - apply lookup_ge_None in Hvalue. rewrite decide_True by lia. done.
Qed.

(** [c_str] keeps the characters before the first NUL, and only them. *)
Lemma c_str_whole (s : string) : has_nul s = false → c_str s = s.
Proof.
  induction s as [|c s IH]; simpl; [done|].
  destruct (decide (c = NUL)); [done|]. intros Hs. by rewrite IH.
Qed.

Lemma c_str_prefix (s : string) :
  ∃ rest,
    s = String.append (c_str s) rest ∧ has_nul (c_str s) = false ∧
    (rest = EmptyString ∨ ∃ rest', rest = String NUL rest').
Proof.
  induction s as [|c s (rest & Hs & Hnul & Hrest)]; simpl.
  - exists EmptyString. auto.
  - destruct (decide (c = NUL)) as [->|Hc].
    + exists (String NUL s). simpl. eauto.
    + exists rest. simpl. rewrite decide_False by done.
      split; [exact (f_equal (String c) Hs)|]. auto.
Qed.

(** C3 (as amended).  Value coercion at column-read time.  For a read
    inside the buffer the call returns [SQLITE_OK] whatever the value is.
    A TEXT column hands over the string up to its first NUL byte (the
    whole string when it holds none, the empty string included) and logs
    nothing.  An INTEGER or BIGINT column hands over the parsed number
    when the strict parse of the whole string succeeds; when it fails it
    hands over -1 and logs exactly one warning, which names the column
    and the raw value.  ["42"] parses to 42 as INTEGER, ["abc"] does not
    parse, and ["9999999999"] parses to 9999999999 as BIGINT (not as
    INTEGER). *)
Theorem coercion_at_column_read (T : TablePluginT) (pCur : base_cursor)
    (pContent : osquery_table) (col : Z) (column_name type value : string) :
  is_int col → is_int (row pCur) → 0 ≤ col → 0 ≤ row pCur →
  column_names T !! Z.to_nat col = Some column_name →
  types T !! Z.to_nat col = Some type →
  subscript (columns pContent) column_name !! Z.to_nat (row pCur)
    = Some value →
  (∃ r pContent',
      xColumn T pCur pContent col = Returned (r, pContent') ∧
      rc r = SQLITE_OK ∧
      (type = "TEXT"%string →
         result r = Some (result_text (c_str value)) ∧ diagnostics r = []) ∧
      (type = "INTEGER"%string →
         match lexical_cast_int value with
         | Some v => result r = Some (result_int v) ∧ diagnostics r = []
         | None =>
             result r = Some (result_int (-1)) ∧
             diagnostics r =
               ["Error casting " +:+ column_name +:+ " (" +:+ value
                  +:+ ") to INTEGER"]
         end) ∧
      (type = "BIGINT"%string →
         match lexical_cast_long_long value with
         | Some v => result r = Some (result_int64 v) ∧ diagnostics r = []
         | None =>
             result r = Some (result_int64 (-1)) ∧
             diagnostics r =
               ["Error casting " +:+ column_name +:+ " (" +:+ value
                  +:+ ") to BIGINT"]
         end)) ∧
  (∃ rest,
     value = String.append (c_str value) rest ∧
     has_nul (c_str value) = false ∧
     (rest = EmptyString ∨ ∃ rest', rest = String NUL rest')) ∧
  (has_nul value = false → c_str value = value) ∧
  c_str "" = ""%string ∧
  lexical_cast_int "42" = Some 42 ∧
  lexical_cast_int "abc" = None ∧
  lexical_cast_int "9999999999" = None ∧
  lexical_cast_long_long "9999999999" = Some 9999999999.
Proof.
  intros Hcol Hrow Hcol0 Hrow0 Hname Htype Hvalue.
  split; [|split; [apply c_str_prefix|split; [apply c_str_whole|by vm_compute]]].
  rewrite (xColumn_in_range T pCur pContent col column_name type) by done.
  simpl. rewrite Hvalue.
  eexists _, _. split; [done|]. split; [done|].
  unfold read_of, coerce. simpl.
  split; [|split].
  - intros ->. by rewrite decide_True.
  - intros ->. rewrite decide_False by done. rewrite decide_True by done.
    by destruct (lexical_cast_int value).
  - intros ->. rewrite !decide_False by done. rewrite decide_True by done.
    by destruct (lexical_cast_long_long value).
Qed.

(** C3, the claim as first stated fails: a TEXT value with a NUL byte
    inside is not handed over verbatim.  The buffered value is the three
    bytes '4', NUL, '2'; the read hands over the one-byte text "4". *)
Lemma text_with_nul_is_cut :
  types Sample.binary !! 0%nat = Some "TEXT"%string ∧
  subscript (columns Sample.binary_filtered) "path" !! 0%nat
    = Some Sample.nul_value ∧
  xColumn Sample.binary Sample.cursor Sample.binary_filtered 0 =
    Returned ({| rc := SQLITE_OK; result := Some (result_text "4");
                 diagnostics := [] |}, Sample.binary_filtered) ∧
  Some (result_text "4") ≠ Some (result_text Sample.nul_value).
Proof.
  split; [reflexivity|]. split; [reflexivity|].
  split; [vm_compute; reflexivity|]. discriminate.
Qed.

(** The strict parse stays inside the target type. *)
Lemma lexical_cast_range (lo hi : Z) (s : string) (v : Z) :
  lo ≤ 0 ≤ hi → lexical_cast lo hi s = Some v → lo ≤ v ≤ hi.
Proof.
  intros Hb. unfold lexical_cast. destruct s as [|c s']; [done|].
  assert (Hd : ∀ t acc m, 0 ≤ acc → digits acc t = Some m → 0 ≤ m).
  { induction t as [|a t IH]; simpl; intros acc m Hacc.
    - by intros [= <-].
    - unfold digit_of. case_decide; [|done]. apply IH. lia. }
  assert (Hu : ∀ t m, unsigned t = Some m → 0 ≤ m).
  { intros [|a t] m; [done|]. apply Hd. lia. }
  case_decide.
  - destruct (unsigned s') as [m|] eqn:E; [|done].
    case_decide; [|done]. intros [= <-]. apply Hu in E. lia.
  - destruct (unsigned (if decide (c = "+"%char) then s' else String c s'))
      as [m|] eqn:E; [|done].
    destruct (decide (m ≤ hi)); [|done]. intros [= <-]. apply Hu in E. lia.
Qed.

(** C7. Bounds of a column read, for every declared type.  A column index
    at or past the number of declared columns, or a cursor position at or
    past the number of values buffered for the column, makes [xColumn]
    return [SQLITE_ERROR] without handing a value to the engine; any other
    read returns what the coercion of the buffered value gives. *)
Theorem column_read_bounds (T : TablePluginT) (pCur : base_cursor)
    (pContent : osquery_table) (col : Z) :
  is_int col → is_int (row pCur) →
  length (types T) = length (column_names T) →
  (Z.of_nat (length (column_names T)) ≤ col →
     xColumn T pCur pContent col =
       Returned ({| rc := SQLITE_ERROR; result := None; diagnostics := [] |},
                 pContent)) ∧
  (∀ column_name,
     0 ≤ col → column_names T !! Z.to_nat col = Some column_name →
     Z.of_nat (length (subscript (columns pContent) column_name))
       ≤ row pCur →
     ∃ pContent',
       xColumn T pCur pContent col =
         Returned ({| rc := SQLITE_ERROR; result := None; diagnostics := [] |},
                   pContent') ∧
       n pContent' = n pContent ∧
       constraints pContent' = constraints pContent ∧
       ∀ k, subscript (columns pContent') k = subscript (columns pContent) k) ∧
  (∀ column_name type value,
     0 ≤ col → 0 ≤ row pCur →
     column_names T !! Z.to_nat col = Some column_name →
     types T !! Z.to_nat col = Some type →
     subscript (columns pContent) column_name !! Z.to_nat (row pCur)
       = Some value →
     ∃ pContent',
       xColumn T pCur pContent col =
         Returned ({| rc := SQLITE_OK;
                      result := (coerce type column_name value).1;
                      diagnostics := (coerce type column_name value).2 |},
                   pContent') ∧
       n pContent' = n pContent ∧
       constraints pContent' = constraints pContent ∧
       ∀ k, subscript (columns pContent') k = subscript (columns pContent) k).
Proof.
  intros Hcol Hrow Hlen.
  assert (Hsame : ∀ column_name k,
    subscript (at_subscript id (columns pContent) column_name) k
      = subscript (columns pContent) k).
  { intros column_name k. destruct (decide (column_name = k)) as [->|Hne].
    - by rewrite subscript_at_subscript_eq.
    - by rewrite subscript_at_subscript_ne. }
  split; [|split].
  - by apply xColumn_column_out_of_range.
  - intros column_name Hcol0 Hname Hpast.
    destruct (types T !! Z.to_nat col) as [type|] eqn:Htype.
    2:{ apply lookup_ge_None in Htype. apply lookup_lt_Some in Hname. lia. }
    destruct (decide (0 ≤ row pCur)) as [Hrow0|Hneg].
    + rewrite (xColumn_in_range T pCur pContent col column_name type)
        by done.
      simpl. rewrite (lookup_ge_None_2 _ (Z.to_nat (row pCur))) by lia.
      eexists. split; [done|]. simpl. auto.
    + unfold xColumn. rewrite (size_t_of_int_small col) by done.
      apply lookup_lt_Some in Hname as Hlt.
      rewrite decide_False by lia.
      rewrite (vector_at_Returned _ _ _ Hcol0 Hname).
      rewrite (vector_at_Returned _ _ _ Hcol0 Htype). simpl.
      rewrite decide_True.
      * eexists. split; [done|]. simpl. auto.
      * rewrite size_t_of_int_negative by (done || lia). lia.
  - intros column_name type value Hcol0 Hrow0 Hname Htype Hvalue.
    rewrite (xColumn_in_range T pCur pContent col column_name type) by done.
    simpl. rewrite Hvalue.
    eexists. split; [done|]. simpl. auto.
Qed.

Lemma coercion_at_column_read_witness :
  ∃ r pContent',
    xColumn Sample.T {| row := 1 |} Sample.filtered 1
      = Returned (r, pContent') ∧
    rc r = SQLITE_OK ∧
    result r = Some (result_int (-1)) ∧
    diagnostics r = ["Error casting pid (abc) to INTEGER"%string].
Proof.
  destruct (coercion_at_column_read Sample.T {| row := 1 |} Sample.filtered 1
              "pid" "INTEGER" "abc")
    as [(r & pContent' & Hcall & Hrc & _ & Hinteger & _) _].
  - int_range.
  - int_range.
  - lia.
  - simpl. lia.
  - reflexivity.
  - reflexivity.
  - reflexivity.
  - exists r, pContent'. split; [exact Hcall|]. split; [exact Hrc|].
    exact (Hinteger eq_refl).
Defined.

Lemma column_read_bounds_witness :
  xColumn Sample.T {| row := 0 |} Sample.filtered 3 =
    Returned ({| rc := SQLITE_ERROR; result := None; diagnostics := [] |},
              Sample.filtered) ∧
  (∃ pContent',
     xColumn Sample.T {| row := 2 |} Sample.filtered 1 =
       Returned ({| rc := SQLITE_ERROR; result := None; diagnostics := [] |},
                 pContent')) ∧
  (∃ pContent',
     xColumn Sample.T {| row := 0 |} Sample.filtered 1 =
       Returned ({| rc := SQLITE_OK; result := Some (result_int 42);
                    diagnostics := [] |},
                 pContent')).
Proof.
  assert (Hint : ∀ z, -10 ≤ z ≤ 10 → is_int z) by (intros; int_range).
  split; [|split].
  - apply (column_read_bounds Sample.T {| row := 0 |} Sample.filtered 3).
    + apply Hint. lia.
    + apply Hint. simpl. lia.
    + reflexivity.
    + simpl. lia.
  - destruct (column_read_bounds Sample.T {| row := 2 |} Sample.filtered 1)
      as (_ & Hrow & _).
    + apply Hint. lia.
    + apply Hint. simpl. lia.
    + reflexivity.
    + destruct (Hrow "pid"%string) as (pContent' & Hcall & _).
      * lia.
      * reflexivity.
      * by vm_compute.
      * exists pContent'. exact Hcall.
  - destruct (column_read_bounds Sample.T {| row := 0 |} Sample.filtered 1)
      as (_ & _ & Hread).
    + apply Hint. lia.
    + apply Hint. simpl. lia.
    + reflexivity.
    + destruct (Hread "pid" "INTEGER" "42"%string) as (pContent' & Hcall & _).
      * lia.
      * simpl. lia.
      * reflexivity.
      * reflexivity.
      * reflexivity.
      * exists pContent'. exact Hcall.
Defined.

(** ** Best-index negotiation *)

Lemma vector_at_in_range {A} (v : list A) (i : Z) :
  0 ≤ i < Z.of_nat (length v) →
  ∃ a, vector_at v i = Returned a ∧ v !! Z.to_nat i = Some a.
Proof.
  intros Hi. destruct (lookup_lt_is_Some_2 v (Z.to_nat i)) as [a Ha]; [lia|].
  exists a. split; [|done]. apply vector_at_Returned; [lia|done].
Qed.

Lemma xBestIndex_loop_UB (T : TablePluginT) (pIdxInfo : sqlite3_index_info) :
  ∀ expr_index cs,
    xBestIndex_loop T pIdxInfo expr_index cs = UB ↔
    Exists (unchecked T) pIdxInfo.
Proof.
  induction pIdxInfo as [|[c u] rest IH]; intros expr_index cs; simpl.
  - split; [done|]. intros H. inversion H.
  - rewrite Exists_cons. unfold unchecked at 1. simpl.
    destruct (usable c) eqn:Husable.
    + destruct (decide (0 ≤ size_t_of_int (iColumn c)
                          < Z.of_nat (length (column_names T)))) as [Hin|Hout].
      * destruct (vector_at_in_range _ _ Hin) as (name & -> & _). simpl.
        specialize (IH (expr_index + 1)
                      (cs ++ [(name, mkConstraint (Sqlite3.op c))])).
        destruct (xBestIndex_loop T rest (expr_index + 1) _) as [[rest' cs']|].
        -- simpl. split; [done|]. intros [[_ ?]|HE]; [done|].
           by apply IH in HE.
        -- simpl. split; [|done]. intros _. right. by apply IH.
      * rewrite vector_at_UB by done. simpl. split; [|done]. intros _. by left.
    + specialize (IH expr_index cs).
      destruct (xBestIndex_loop T rest expr_index cs) as [[rest' cs']|].
      * simpl. split; [done|]. intros [[? _]|HE]; [done|]. by apply IH in HE.
      * simpl. split; [|done]. intros _. right. by apply IH.
Qed.

(** C10. [xBestIndex] subscripts [column_names] with the raw column index
    of every usable candidate: the call has no defined behaviour exactly
    when some usable candidate carries an index outside the schema.  The
    rowid pseudo-column -1 is such an index (as a [size_t] it is
    2^64 - 1), and so is the column count itself. *)
Theorem best_index_unchecked_column :
  (∀ T pContent pIdxInfo,
     xBestIndex T pContent pIdxInfo = UB ↔ Exists (unchecked T) pIdxInfo) ∧
  size_t_of_int (-1) = 2 ^ 64 - 1 ∧
  xBestIndex Sample.T Sample.created
    [Sample.candidate (-1) Sample.SQLITE_INDEX_CONSTRAINT_EQ true] = UB ∧
  xBestIndex Sample.T Sample.created
    [Sample.candidate 3 Sample.SQLITE_INDEX_CONSTRAINT_EQ true] = UB.
Proof.
  split; [|by vm_compute].
  intros T pContent pIdxInfo. unfold xBestIndex.
  rewrite <- (xBestIndex_loop_UB T pIdxInfo 0 (constraints pContent)).
  by destruct (xBestIndex_loop T pIdxInfo 0 (constraints pContent))
    as [[info cs]|].
Qed.

Lemma xBestIndex_loop_spec (T : TablePluginT) (pIdxInfo : sqlite3_index_info) :
  ∀ expr_index cs,
    Forall (in_schema T) pIdxInfo →
    xBestIndex_loop T pIdxInfo expr_index cs =
      Returned (positions expr_index pIdxInfo, cs ++ proposed T pIdxInfo).
Proof.
  induction pIdxInfo as [|[c u] rest IH]; intros expr_index cs Hin; simpl.
  - unfold proposed, accepted. simpl. by rewrite app_nil_r.
  - apply Forall_cons in Hin as [Hc Hrest]. unfold in_schema in Hc.
    simpl in Hc. unfold proposed, accepted. rewrite fmap_cons. simpl.
    destruct (usable c) eqn:Husable.
    + destruct (Hc eq_refl) as [Hint Hrange].
      rewrite filter_cons_True by done. rewrite fmap_cons.
      rewrite size_t_of_int_small by (done || lia).
      destruct (vector_at_in_range (column_names T) (iColumn c))
        as (name & -> & Hname); [lia|]. simpl.
      rewrite IH by done. simpl.
      unfold column_of at 1. rewrite Hname. simpl.
      by rewrite <- app_assoc.
    + rewrite filter_cons_False by (by rewrite Husable).
      rewrite IH by done. done.
Qed.

Lemma positions_lookup (pIdxInfo : sqlite3_index_info) :
  ∀ expr_index i c u,
    pIdxInfo !! i = Some (c, u) →
    positions expr_index pIdxInfo !! i =
      Some (c, if usable c
               then {| argvIndex :=
                         expr_index + 1
                         + Z.of_nat (length (accepted (take i pIdxInfo))) |}
               else u).
Proof.
  induction pIdxInfo as [|[c0 u0] rest IH]; intros expr_index i c u; [done|].
  destruct i as [|i]; simpl.
  - intros [= -> ->]. destruct (usable c); simpl; [|done].
    do 3 f_equal. unfold accepted. simpl. lia.
  - intros Hi. unfold accepted. rewrite fmap_cons. simpl.
    destruct (usable c0) eqn:Hu0; simpl.
    + rewrite filter_cons_True by done. rewrite (IH _ _ _ _ Hi).
      destruct (usable c); [|done]. do 3 f_equal.
      unfold accepted. simpl. lia.
    + rewrite filter_cons_False by (by rewrite Hu0). by rewrite (IH _ _ _ _ Hi).
Qed.

Lemma proposed_at_position (T : TablePluginT) (pIdxInfo : sqlite3_index_info)
    (i : nat) (c : index_constraint) (u : index_constraint_usage) :
  pIdxInfo !! i = Some (c, u) → usable c = true →
  proposed T pIdxInfo !! length (accepted (take i pIdxInfo)) =
    Some (column_of T c, mkConstraint (Sqlite3.op c)).
Proof.
  intros Hi Hu. pose proof (take_drop_middle _ _ _ Hi) as Hmiddle.
  remember (take i pIdxInfo) as before eqn:Hbefore.
  remember (drop (S i) pIdxInfo) as after eqn:Hafter.
  rewrite <- Hmiddle.
  unfold proposed, accepted. rewrite fmap_app, filter_app, fmap_app.
  rewrite fmap_cons. simpl. rewrite filter_cons_True by done.
  rewrite fmap_cons. apply list_lookup_middle. by rewrite length_fmap.
Qed.

Lemma xFilter_clear_spec (T : TablePluginT) (names : list string) :
  ∀ i cols req,
    (i + length names ≤ length (types T))%nat →
    xFilter_clear T names i cols req =
      Returned (clear_all names cols,
                set_affinities names (drop i (types T)) req).
Proof.
  induction names as [|column_name rest IH]; intros i cols req Hlen; simpl.
  - done.
  - simpl in Hlen.
    destruct (lookup_lt_is_Some_2 (types T) i) as [type Htype]; [lia|].
    rewrite (vector_at_nat _ _ _ Htype). simpl.
    rewrite IH by lia.
    rewrite (drop_S _ _ _ Htype). done.
Qed.

Lemma xFilter_bind_spec (lits : list string) :
  ∀ pre cs req,
    (length lits ≤ length cs)%nat →
    xFilter_bind (Some <$> lits) (length pre) (pre ++ cs) req =
      Returned (pre ++ bound cs lits,
                add_all req (take (length lits) (bound cs lits))).
Proof.
  induction lits as [|e lits IH]; intros pre cs req Hlen.
  - simpl. by destruct cs as [|[??]?].
  - destruct cs as [|[column c] cs]; simpl in Hlen; [lia|].
    rewrite fmap_cons. simpl.
    rewrite (vector_at_nat _ _ (column, c)) by apply list_lookup_middle, eq_refl.
    simpl.
    rewrite insert_app_r_alt by lia. rewrite Nat.sub_diag. simpl.
    rewrite (cons_middle _ pre), app_assoc.
    replace (S (length pre)) with (length (pre ++ [(column, set_expr e c)]))
      by (rewrite length_app; simpl; lia).
    rewrite IH by lia. by rewrite <- app_assoc.
Qed.

Lemma add_all_constraints (l : ConstraintSet) :
  ∀ (req : gmap string ConstraintList) (column : string),
    constraints_ (subscript (add_all req l) column) =
      constraints_ (subscript req column)
        ++ (filter (λ p : string * Constraint, p.1 = column) l).*2.
Proof.
  induction l as [|[name0 c] l IH]; intros req column.
  - simpl. by rewrite app_nil_r.
  - unfold add_all. simpl. fold (add_all (at_subscript (add c) req name0) l).
    rewrite IH. destruct (decide (name0 = column)) as [->|Hne].
    + rewrite subscript_at_subscript_eq. rewrite filter_cons_True by done.
      simpl. by rewrite <- app_assoc.
    + rewrite subscript_at_subscript_ne by done.
      by rewrite filter_cons_False.
Qed.

Lemma set_affinities_constraints (names tys : list string) :
  ∀ (req : gmap string ConstraintList) (column : string),
    constraints_ (subscript (set_affinities names tys req) column) =
      constraints_ (subscript req column).
Proof.
  unfold set_affinities. generalize (zip names tys) as l.
  induction l as [|[name0 ty] l IH]; intros req column; [done|].
  simpl. rewrite IH. destruct (decide (name0 = column)) as [->|Hne].
  - by rewrite subscript_at_subscript_eq.
  - by rewrite subscript_at_subscript_ne.
Qed.

Lemma bound_length (cs : ConstraintSet) :
  ∀ lits, length (bound cs lits) = length cs.
Proof.
  induction cs as [|[column c] cs IH]; intros [|e lits]; simpl; auto.
Qed.

Lemma bound_proposed (T : TablePluginT) (l : list index_constraint) :
  ∀ lits,
    length lits = length l →
    bound ((λ c, (column_of T c, mkConstraint (Sqlite3.op c))) <$> l) lits =
      zip_with (λ c e, (column_of T c, {| op := Sqlite3.op c; expr := e |}))
        l lits.
Proof.
  induction l as [|c l IH]; intros [|e lits] Hlen; simpl in *; try done.
  rewrite IH by lia. done.
Qed.

Lemma xFilter_request_spec (T : TablePluginT) (pContent : osquery_table)
    (lits : list string) :
  (length (column_names T) ≤ length (types T))%nat →
  (length lits ≤ length (constraints pContent))%nat →
  xFilter_request T pContent (Some <$> lits) =
    Returned
      (clear_all (column_names T) (columns pContent),
       bound (constraints pContent) lits,
       {| request_constraints :=
            add_all (set_affinities (column_names T) (types T) ∅)
              (take (length lits) (bound (constraints pContent) lits)) |}).
Proof.
  intros Htypes Hlits. unfold xFilter_request.
  rewrite xFilter_clear_spec by (simpl; lia). simpl.
  rewrite (xFilter_bind_spec lits [] (constraints pContent)) by done.
  done.
Qed.

(** X2. Best-index negotiation and positional binding on their own.
    [xBestIndex] appends one (column name, Constraint{operator}) pair per
    usable candidate, in the order offered, and gives that candidate the
    argument position 1 + (number of usable candidates before it): the
    positions are 1, 2, 3, ... over the accepted candidates only, and a
    candidate that is not usable keeps the usage entry it came with.  On
    an adapter whose ConstraintSet held nothing before the negotiation,
    [xFilter] called with one literal per accepted candidate hands to
    [generate] a request whose constraints, column by column, are the
    (operator, literal) pairs of the accepted candidates on that column,
    in order: a function of the accepted candidates alone. *)
Lemma positional_binding_fresh (T : TablePluginT) (pContent : osquery_table)
    (pIdxInfo : sqlite3_index_info) (lits : list string) :
  Forall (in_schema T) pIdxInfo →
  ∃ pIdxInfo' pContent',
    xBestIndex T pContent pIdxInfo =
      Returned (SQLITE_OK, pIdxInfo', pContent') ∧
    constraints pContent' =
      constraints pContent
        ++ ((λ c, (column_of T c, mkConstraint (Sqlite3.op c)))
              <$> accepted pIdxInfo) ∧
    (∀ i c u,
       pIdxInfo !! i = Some (c, u) →
       let before := length (accepted (take i pIdxInfo)) in
       if usable c then
         pIdxInfo' !! i =
           Some (c, {| argvIndex := 1 + Z.of_nat before |}) ∧
         constraints pContent' !! (length (constraints pContent) + before)%nat =
           Some (column_of T c, mkConstraint (Sqlite3.op c))
       else pIdxInfo' !! i = Some (c, u)) ∧
    (constraints pContent = [] →
     length (types T) = length (column_names T) →
     length lits = length (accepted pIdxInfo) →
     let triples :=
       zip_with (λ c e, (column_of T c, {| op := Sqlite3.op c; expr := e |}))
         (accepted pIdxInfo) lits in
     ∃ cols request,
       xFilter_request T pContent' (Some <$> lits) =
         Returned (cols, triples, request) ∧
       (∀ column,
          constraints_ (subscript (request_constraints request) column) =
            (filter (λ p : string * Constraint, p.1 = column) triples).*2) ∧
       ∀ pCur,
         xFilter T pCur pContent' (Some <$> lits) =
           '(cols', count) ←
             xFilter_fill (column_names T) (generate T request) cols 0;
           mret (SQLITE_OK, {| row := 0 |},
                 {| n := count; columns := cols'; constraints := triples |})).
Proof.
  intros Hschema. unfold xBestIndex.
  rewrite xBestIndex_loop_spec by done. simpl.
  eexists _, _. split; [done|]. simpl.
  split; [done|]. split.
  - intros i c u Hi. simpl.
    rewrite (positions_lookup _ 0 _ _ _ Hi).
    destruct (usable c) eqn:Hu; [|done]. split.
    + do 3 f_equal.
    + rewrite lookup_app_r by lia.
      replace (length (constraints pContent)
               + length (accepted (take i pIdxInfo))
               - length (constraints pContent))%nat
        with (length (accepted (take i pIdxInfo))) by lia.
      apply (proposed_at_position T pIdxInfo i c u Hi Hu).
  - intros Hempty Htypes Hlits. simpl. rewrite Hempty. simpl.
    set (triples :=
      zip_with (λ c e, (column_of T c, {| op := Sqlite3.op c; expr := e |}))
        (accepted pIdxInfo) lits).
    assert (Hlen : length (proposed T pIdxInfo) = length (accepted pIdxInfo))
      by (unfold proposed; apply length_fmap).
    assert (Hbound : bound (proposed T pIdxInfo) lits = triples)
      by (unfold proposed; by apply bound_proposed).
    assert (Htake : take (length lits) triples = triples).
    { apply take_ge. unfold triples. rewrite length_zip_with. lia. }
    pose proof (xFilter_request_spec T
                  (set_constraints (proposed T pIdxInfo) pContent) lits)
      as Hrequest.
    simpl in Hrequest. rewrite Hbound, Htake in Hrequest.
    specialize (Hrequest ltac:(lia) ltac:(lia)).
    eexists _, _. split; [exact Hrequest|]. split.
    + intros column. simpl. rewrite add_all_constraints.
      rewrite set_affinities_constraints. done.
    + intros pCur. rewrite xFilter_unfold, Hrequest. done.
Qed.

Example positional_binding_fresh_sample :
  ∃ pIdxInfo' pContent',
    xBestIndex Sample.T Sample.created
      [Sample.candidate 1 Sample.SQLITE_INDEX_CONSTRAINT_EQ true;
       Sample.candidate (-1) Sample.SQLITE_INDEX_CONSTRAINT_EQ false;
       Sample.candidate 0 Sample.SQLITE_INDEX_CONSTRAINT_GT true]
      = Returned (SQLITE_OK, pIdxInfo', pContent') ∧
    ∃ cols request,
      xFilter_request Sample.T pContent' [Some "42"; Some "/bin/sh"]%string =
        Returned (cols,
                  [("pid", {| op := 2; expr := "42" |});
                   ("path", {| op := 4; expr := "/bin/sh" |})]%string,
                  request) ∧
      constraints_ (subscript (request_constraints request) "pid") =
        [{| op := 2; expr := "42" |}].
Proof.
  destruct (positional_binding_fresh Sample.T Sample.created
              [Sample.candidate 1 Sample.SQLITE_INDEX_CONSTRAINT_EQ true;
               Sample.candidate (-1) Sample.SQLITE_INDEX_CONSTRAINT_EQ false;
               Sample.candidate 0 Sample.SQLITE_INDEX_CONSTRAINT_GT true]
              ["42"; "/bin/sh"]%string)
    as (pIdxInfo' & pContent' & Hbest & _ & _ & Hbind).
  - repeat apply Forall_cons_2; try apply Forall_nil_2;
      unfold in_schema; simpl; intros; (int_range || done).
  - exists pIdxInfo', pContent'. split; [exact Hbest|].
    destruct (Hbind eq_refl eq_refl eq_refl)
      as (cols & request & Hrequest & Hcolumn & _).
    exists cols, request. split; [exact Hrequest|].
    exact (Hcolumn "pid"%string).
Defined.

(** ** The row buffer *)

Lemma clear_all_lookup (names : list string) :
  ∀ (cols : gmap string (list string)) (c : string),
    clear_all names cols !! c =
      if decide (c ∈ names) then Some [] else cols !! c.
Proof.
  induction names as [|a names IH]; intros cols c.
  - destruct (decide (c ∈ [])) as [Hin|_]; [|done].
    by apply elem_of_nil in Hin.
  - unfold clear_all. simpl. fold (clear_all names (at_subscript (λ _, []) cols a)).
    rewrite IH. rewrite lookup_at_subscript.
    destruct (decide (c ∈ names)) as [Hin|Hnin].
    + rewrite decide_True by (apply elem_of_cons; by right). done.
    + destruct (decide (a = c)) as [->|Hne].
      * rewrite decide_True by (apply elem_of_cons; by left). done.
      * rewrite decide_False; [done|].
        intros [->|Hin]%elem_of_cons; done.
Qed.

Lemma push_row_other (names : list string) (r : Row) (c : string) :
  c ∉ names →
  ∀ cols : gmap string (list string), push_row names r cols !! c = cols !! c.
Proof.
  induction names as [|a names IH]; intros Hc cols; [done|].
  apply not_elem_of_cons in Hc as [Hne Hc].
  unfold push_row. simpl.
  fold (push_row names r
          (at_subscript (λ v, v ++ [subscript r a]) cols a)).
  rewrite IH by done. rewrite lookup_at_subscript. by rewrite decide_False.
Qed.

Lemma push_row_declared (names : list string) (r : Row) (c : string) :
  NoDup names → c ∈ names →
  ∀ cols : gmap string (list string),
    push_row names r cols !! c = Some (subscript cols c ++ [subscript r c]).
Proof.
  induction names as [|a names IH]; intros Hnodup Hc cols.
  - by apply elem_of_nil in Hc.
  - apply NoDup_cons in Hnodup as [Ha Hnodup].
    unfold push_row. simpl.
    fold (push_row names r
            (at_subscript (λ v, v ++ [subscript r a]) cols a)).
    destruct (decide (c = a)) as [->|Hne].
    + rewrite push_row_other by done. rewrite lookup_at_subscript.
      by rewrite decide_True.
    + apply elem_of_cons in Hc as [?|Hc]; [done|].
      rewrite IH by done. by rewrite subscript_at_subscript_ne.
Qed.

Lemma fill_all_other (names : list string) (rows : list Row) (c : string) :
  c ∉ names →
  ∀ cols : gmap string (list string), fill_all names rows cols !! c = cols !! c.
Proof.
  intros Hc. induction rows as [|r rows IH]; intros cols; [done|].
  unfold fill_all. simpl. fold (fill_all names rows (push_row names r cols)).
  rewrite IH. by apply push_row_other.
Qed.

Lemma fill_all_declared (names : list string) (rows : list Row) (c : string) :
  NoDup names → c ∈ names →
  ∀ (cols : gmap string (list string)) (v : list string),
    cols !! c = Some v →
    fill_all names rows cols !! c =
      Some (v ++ ((λ r : Row, subscript r c) <$> rows)).
Proof.
  intros Hnodup Hc. induction rows as [|r rows IH]; intros cols v Hv.
  - simpl. by rewrite app_nil_r.
  - unfold fill_all. simpl. fold (fill_all names rows (push_row names r cols)).
    rewrite (IH _ (v ++ [subscript r c])).
    + by rewrite <- app_assoc.
    + rewrite push_row_declared by done. by rewrite (subscript_Some _ _ _ Hv).
Qed.

Lemma xFilter_fill_inv (names : list string) (rows : list Row) :
  ∀ cols count cols' count',
    xFilter_fill names rows cols count = Returned (cols', count') →
    cols' = fill_all names rows cols ∧
    count' = count + Z.of_nat (length rows) ∧
    count' ≤ INT_MAX ∨ rows = [] ∧ cols' = cols ∧ count' = count.
Proof.
  induction rows as [|r rows IH]; intros cols count cols' count'; simpl.
  - intros [= <- <-]. by right.
  - unfold int_incr. case_decide; [|done]. simpl. intros Hfill.
    apply IH in Hfill as [(-> & -> & Hmax)|(-> & -> & ->)]; left.
    + split; [done|]. split; lia.
    + split; [done|]. simpl. split; lia.
Qed.

Lemma xFilter_fill_spec (names : list string) (rows : list Row) :
  ∀ cols count,
    count + Z.of_nat (length rows) ≤ INT_MAX →
    xFilter_fill names rows cols count =
      Returned (fill_all names rows cols, count + Z.of_nat (length rows)).
Proof.
  induction rows as [|r rows IH]; intros cols count Hmax; simpl.
  - by rewrite Z.add_0_r.
  - simpl in Hmax. unfold int_incr. rewrite decide_True by lia. simpl.
    rewrite IH by lia. do 2 f_equal. lia.
Qed.

Lemma xFilter_clear_inv (T : TablePluginT) (names : list string) :
  ∀ i cols req cols' req',
    xFilter_clear T names i cols req = Returned (cols', req') →
    cols' = clear_all names cols.
Proof.
  induction names as [|a names IH]; intros i cols req cols' req'; simpl.
  - by intros [= <- _].
  - destruct (vector_at (types T) (Z.of_nat i)) as [type|]; [|done]. simpl.
    intros Hclear. by apply IH in Hclear.
Qed.

(** What a call of [xFilter] that returns has done. *)
Lemma xFilter_inv (T : TablePluginT) (pCur pCur' : base_cursor)
    (pContent pContent' : osquery_table) (argv : list sqlite3_value)
    (code : Z) :
  xFilter T pCur pContent argv = Returned (code, pCur', pContent') →
  ∃ cs request,
    xFilter_request T pContent argv =
      Returned (clear_all (column_names T) (columns pContent), cs, request) ∧
    code = SQLITE_OK ∧ pCur' = {| row := 0 |} ∧
    pContent' =
      {| n := Z.of_nat (length (generate T request));
         columns :=
           fill_all (column_names T) (generate T request)
             (clear_all (column_names T) (columns pContent));
         constraints := cs |}.
Proof.
  rewrite xFilter_unfold.
  destruct (xFilter_request T pContent argv) as [[[cols cs] request]|] eqn:Hreq;
    [|done].
  simpl.
  destruct (xFilter_fill (column_names T) (generate T request) cols 0)
    as [[cols' count]|] eqn:Hfill; [|done].
  simpl. intros [= <- <- <-].
  assert (cols = clear_all (column_names T) (columns pContent)) as ->.
  { unfold xFilter_request in Hreq.
    destruct (xFilter_clear T (column_names T) 0 (columns pContent) ∅)
      as [[cols0 req0]|] eqn:Hclear; [|done].
    simpl in Hreq.
    destruct (xFilter_bind argv 0 (constraints pContent) req0)
      as [[cs0 req1]|]; [|done].
    simpl in Hreq. injection Hreq as <- _ _.
    by apply xFilter_clear_inv in Hclear. }
  exists cs, request. split; [done|]. split; [done|]. split; [done|].
  apply xFilter_fill_inv in Hfill as [(-> & -> & _)|(Hnil & -> & ->)].
  - done.
  - by rewrite Hnil.
Qed.

(** C9. The row buffer after [xFilter] is rectangular.  When the declared
    column names are pairwise distinct, every call of [xFilter] that
    returns leaves, for every declared column, a value sequence whose
    length is the row count [n]; position [i] of the sequence holds the
    value that generated row [i] has under the column name, and the empty
    string when the row has no such key.  A key that is not a declared
    column is not touched in the buffer, whatever the generated rows
    carry under it. *)
Theorem buffer_rectangular (T : TablePluginT) (pCur pCur' : base_cursor)
    (pContent pContent' : osquery_table) (argv : list sqlite3_value)
    (code : Z) :
  NoDup (column_names T) →
  xFilter T pCur pContent argv = Returned (code, pCur', pContent') →
  ∃ cols cs request,
    xFilter_request T pContent argv = Returned (cols, cs, request) ∧
    n pContent' = Z.of_nat (length (generate T request)) ∧
    (∀ c, c ∈ column_names T →
       ∃ v, columns pContent' !! c = Some v ∧
            Z.of_nat (length v) = n pContent' ∧
            ∀ i r, generate T request !! i = Some r →
                   v !! i = Some (default ""%string (r !! c))) ∧
    (∀ c, c ∉ column_names T → columns pContent' !! c = columns pContent !! c).
Proof.
  intros Hnodup Hfilter.
  apply xFilter_inv in Hfilter as (cs & request & Hrequest & _ & _ & ->).
  eexists _, cs, request. split; [exact Hrequest|]. simpl.
  split; [done|]. split.
  - intros c Hc. eexists. split.
    + apply fill_all_declared; [done..|].
      rewrite clear_all_lookup. by rewrite decide_True.
    + simpl. rewrite length_fmap. split; [done|].
      intros i r Hr. rewrite list_lookup_fmap, Hr. done.
  - intros c Hc. rewrite fill_all_other by done.
    rewrite clear_all_lookup. by rewrite decide_False.
Qed.

Lemma buffer_rectangular_witness :
  ∃ cols cs request,
    xFilter_request Sample.T Sample.created [] = Returned (cols, cs, request) ∧
    n Sample.filtered = Z.of_nat (length (generate Sample.T request)) ∧
    (∀ c, c ∈ column_names Sample.T →
       ∃ v, columns Sample.filtered !! c = Some v ∧
            Z.of_nat (length v) = n Sample.filtered ∧
            ∀ i r, generate Sample.T request !! i = Some r →
                   v !! i = Some (default ""%string (r !! c))) ∧
    (∀ c, c ∉ column_names Sample.T →
       columns Sample.filtered !! c = columns Sample.created !! c).
Proof.
  apply (buffer_rectangular Sample.T Sample.cursor {| row := 0 |}
           Sample.created Sample.filtered [] SQLITE_OK).
  - compute_done.
  - vm_compute. reflexivity.
Defined.

(** ** Filtering again *)

Lemma xFilter_spec (T : TablePluginT) (pCur : base_cursor)
    (pContent : osquery_table) (lits : list string) :
  (length (column_names T) ≤ length (types T))%nat →
  (length lits ≤ length (constraints pContent))%nat →
  Z.of_nat (length (generate T (request_of T (constraints pContent) lits)))
    ≤ INT_MAX →
  xFilter T pCur pContent (Some <$> lits) =
    Returned (SQLITE_OK, {| row := 0 |}, filtered_content T pContent lits).
Proof.
  intros Htypes Hlits Hrows. rewrite xFilter_unfold.
  rewrite xFilter_request_spec by done. simpl.
  fold (request_of T (constraints pContent) lits).
  rewrite xFilter_fill_spec by lia. simpl. done.
Qed.

Lemma bound_idemp (cs : ConstraintSet) :
  ∀ lits, bound (bound cs lits) lits = bound cs lits.
Proof.
  induction cs as [|[column c] cs IH]; intros [|e lits]; simpl; try done.
  by rewrite IH.
Qed.

Lemma clear_all_fill_all (names : list string) (rows : list Row)
    (cols : gmap string (list string)) :
  clear_all names (fill_all names rows (clear_all names cols))
    = clear_all names cols.
Proof.
  apply map_eq. intros c. rewrite !clear_all_lookup.
  destruct (decide (c ∈ names)) as [Hin|Hnin]; [done|].
  rewrite fill_all_other by done. rewrite clear_all_lookup.
  by rewrite decide_False.
Qed.

Lemma filtered_content_idemp (T : TablePluginT) (pContent : osquery_table)
    (lits : list string) :
  filtered_content T (filtered_content T pContent lits) lits
    = filtered_content T pContent lits.
Proof.
  unfold filtered_content. simpl. unfold request_of.
  rewrite !bound_idemp, clear_all_fill_all. done.
Qed.

(** C6. Filtering resets.  [xFilter] first empties the buffer of every
    declared column and starts the row count at 0; when it returns, the
    cursor is at 0, the row count is the number of rows [generate]
    returned in this call and each declared column holds exactly the
    values of those rows, whatever the cursor, the row count and the
    buffer were before.  Calling [xFilter] again with the same literals
    returns the same content once more. *)
Theorem refilter_resets (T : TablePluginT) (pCur : base_cursor)
    (pContent : osquery_table) (lits : list string) :
  length (types T) = length (column_names T) →
  NoDup (column_names T) →
  (length lits ≤ length (constraints pContent))%nat →
  ∃ cols cs request,
    xFilter_request T pContent (Some <$> lits) = Returned (cols, cs, request) ∧
    (∀ c, c ∈ column_names T → cols !! c = Some []) ∧
    (Z.of_nat (length (generate T request)) ≤ INT_MAX →
     ∃ pContent',
       xFilter T pCur pContent (Some <$> lits) =
         Returned (SQLITE_OK, {| row := 0 |}, pContent') ∧
       n pContent' = Z.of_nat (length (generate T request)) ∧
       (∀ c, c ∈ column_names T →
          columns pContent' !! c =
            Some ((λ r : Row, subscript r c) <$> generate T request)) ∧
       ∀ pCur',
         xFilter T pCur' pContent' (Some <$> lits) =
           Returned (SQLITE_OK, {| row := 0 |}, pContent')).
Proof.
  intros Htypes Hnodup Hlits.
  eexists _, _, _. split.
  { apply xFilter_request_spec; [lia|done]. }
  fold (request_of T (constraints pContent) lits).
  split.
  { intros c Hc. rewrite clear_all_lookup. by rewrite decide_True. }
  intros Hrows. exists (filtered_content T pContent lits).
  split; [apply xFilter_spec; [lia|done..]|].
  split; [done|]. split.
  - intros c Hc. unfold filtered_content. simpl.
    rewrite (fill_all_declared _ _ _ Hnodup Hc _ []); [done|].
    rewrite clear_all_lookup. by rewrite decide_True.
  - intros pCur'. rewrite <- (filtered_content_idemp T pContent lits) at 2.
    apply xFilter_spec.
    + lia.
    + simpl. by rewrite bound_length.
    + change (constraints (filtered_content T pContent lits))
        with (bound (constraints pContent) lits).
      assert (Hreq : request_of T (bound (constraints pContent) lits) lits
                     = request_of T (constraints pContent) lits)
        by (unfold request_of; by rewrite bound_idemp).
      by rewrite Hreq.
Qed.

Lemma refilter_resets_witness :
  ∃ pContent',
    xFilter Sample.T {| row := 2 |} Sample.filtered [] =
      Returned (SQLITE_OK, {| row := 0 |}, pContent') ∧
    n pContent' = 2 ∧
    columns pContent' !! "pid"%string = Some ["42"; "abc"]%string ∧
    xFilter Sample.T {| row := 0 |} pContent' [] =
      Returned (SQLITE_OK, {| row := 0 |}, pContent').
Proof.
  destruct (refilter_resets Sample.T {| row := 2 |} Sample.filtered [])
    as (cols & cs & request & _ & _ & Hrun).
  - reflexivity.
  - compute_done.
  - simpl. lia.
  - destruct Hrun as (pContent' & Hcall & Hn & Hcols & Hagain).
    + simpl. unfold INT_MAX. lia.
    + exists pContent'. split; [exact Hcall|]. split; [exact Hn|].
      split; [|exact (Hagain {| row := 0 |})].
      apply (Hcols "pid"%string). compute_done.
Defined.

(** ** Iteration *)

Lemma drop_cons_inv {A} (l : list A) (j : nat) (a : A) (rest : list A) :
  drop j l = a :: rest → l !! j = Some a ∧ drop (S j) l = rest.
Proof.
  intros Hdrop.
  assert (Hj : l !! j = Some a).
  { rewrite <- (Nat.add_0_r j), <- lookup_drop. by rewrite Hdrop. }
  split; [done|]. rewrite (drop_S _ _ _ Hj) in Hdrop. by injection Hdrop.
Qed.

Lemma read_columns_row (T : TablePluginT) (pContent : osquery_table)
    (k : nat) (r : Row) :
  Z.of_nat (length (column_names T)) ≤ INT_MAX →
  Z.of_nat k ≤ INT_MAX →
  (∀ c, c ∈ column_names T →
     ∃ v, columns pContent !! c = Some v ∧ v !! k = Some (subscript r c)) →
  ∀ names tys j,
    drop j (column_names T) = names → drop j (types T) = tys →
    length tys = length names →
    read_columns T {| row := Z.of_nat k |} pContent (seq j (length names)) =
      Returned
        (zip_with (λ column_name type,
                     read_of type column_name (subscript r column_name))
           names tys,
         pContent).
Proof.
  intros Hcols Hk Hbuf.
  induction names as [|a names IH]; intros tys j Hnames Htys Hlen.
  - by destruct tys.
  - destruct tys as [|ty tys]; [done|].
    apply drop_cons_inv in Hnames as [Ha Hnames].
    apply drop_cons_inv in Htys as [Hty Htys].
    simpl. pose proof (lookup_lt_Some _ _ _ Ha) as Hj.
    destruct (Hbuf a) as (v & Hv & Hvk).
    { by apply list_elem_of_lookup_2 in Ha. }
    rewrite (xColumn_in_range T _ pContent (Z.of_nat j) a ty); simpl;
      rewrite ?Nat2Z.id; try done; try lia; try int_range.
    rewrite (subscript_Some _ _ _ Hv), Hvk. simpl.
    rewrite at_subscript_id_present by done.
    rewrite set_columns_same.
    rewrite (IH tys (S j)) by (done || (simpl in Hlen; lia)). done.
Qed.

Lemma scan_spec (T : TablePluginT) (pContent : osquery_table) (R : list Row) :
  length (types T) = length (column_names T) →
  Z.of_nat (length (column_names T)) ≤ INT_MAX →
  Z.of_nat (length R) ≤ INT_MAX →
  n pContent = Z.of_nat (length R) →
  (∀ c, c ∈ column_names T →
     columns pContent !! c = Some ((λ r : Row, subscript r c) <$> R)) →
  ∀ rest k fuel,
    drop k R = rest → (length rest < fuel)%nat →
    scan fuel T {| row := Z.of_nat k |} pContent =
      Some (Returned (expected_row T <$> rest)).
Proof.
  intros Htypes Hcols Hrows Hn Hbuf.
  induction rest as [|r rest IH]; intros k fuel Hdrop Hfuel.
  - destruct fuel as [|fuel]; [simpl in Hfuel; lia|].
    apply drop_nil_inv in Hdrop.
    assert (Heof : xEof {| row := Z.of_nat k |} pContent = 1).
    { unfold xEof. simpl. rewrite Hn. rewrite decide_True by lia. done. }
    simpl. rewrite Heof. done.
  - destruct fuel as [|fuel]; [simpl in Hfuel; lia|].
    apply drop_cons_inv in Hdrop as [Hr Hdrop].
    pose proof (lookup_lt_Some _ _ _ Hr) as Hk.
    assert (Heof : xEof {| row := Z.of_nat k |} pContent = 0).
    { unfold xEof. simpl. rewrite Hn. rewrite decide_False by lia. done. }
    simpl. rewrite Heof. simpl.
    rewrite (read_columns_row T pContent k r Hcols ltac:(lia))
      with (names := column_names T) (tys := types T); try done.
    + replace (Z.of_nat k + 1) with (Z.of_nat (S k)) by lia.
      rewrite (IH (S k) fuel Hdrop) by (simpl in Hfuel; lia). done.
    + intros c Hc. eexists. split; [by apply Hbuf|].
      by rewrite list_lookup_fmap, Hr.
Qed.

(** C1 (as amended).  Iteration after a filter.  For a schema with as
    many types as column names and pairwise distinct names, [xFilter]
    returns, and the engine's loop over [xEof], [xColumn] and [xNext]
    that follows ends after exactly as many rows as [generate] returned,
    in the order generated; the read of row [i], column [j] is
    [SQLITE_OK] with the coercion of the value that generated row [i] has
    under column name [j], where the coercion of a TEXT value is the
    value up to its first NUL byte (the whole value when it holds none).
    [xEof] answers 1 exactly when the cursor position is at or past the
    row count, which after the filter is the number of buffered rows. *)
Theorem iteration_yields_generated_rows (T : TablePluginT)
    (pCur : base_cursor) (pContent : osquery_table) (lits : list string) :
  length (types T) = length (column_names T) →
  NoDup (column_names T) →
  Z.of_nat (length (column_names T)) ≤ INT_MAX →
  (length lits ≤ length (constraints pContent))%nat →
  (∃ cols cs request,
     xFilter_request T pContent (Some <$> lits) = Returned (cols, cs, request) ∧
     (Z.of_nat (length (generate T request)) ≤ INT_MAX →
      ∃ pContent',
        xFilter T pCur pContent (Some <$> lits) =
          Returned (SQLITE_OK, {| row := 0 |}, pContent') ∧
        n pContent' = Z.of_nat (length (generate T request)) ∧
        ∀ fuel,
          (length (generate T request) < fuel)%nat →
          scan fuel T {| row := 0 |} pContent' =
            Some (Returned
                    ((λ r : Row,
                        zip_with
                          (λ column_name type,
                             {| rc := SQLITE_OK;
                                result :=
                                  (coerce type column_name
                                     (subscript r column_name)).1;
                                diagnostics :=
                                  (coerce type column_name
                                     (subscript r column_name)).2 |})
                          (column_names T) (types T))
                       <$> generate T request)))) ∧
  (∀ cur content,
     (xEof cur content = 1 ↔ n content ≤ row cur) ∧
     (xEof cur content = 0 ↔ row cur < n content)) ∧
  (∀ column_name value,
     (coerce "TEXT" column_name value).1 = Some (result_text (c_str value)) ∧
     (has_nul value = false →
      (coerce "TEXT" column_name value).1 = Some (result_text value))).
Proof.
  intros Htypes Hnodup Hcols Hlits. split; [|split].
  - eexists _, _, _. split.
    { apply xFilter_request_spec; [lia|done]. }
    fold (request_of T (constraints pContent) lits).
    intros Hrows. exists (filtered_content T pContent lits).
    split; [apply xFilter_spec; [lia|done..]|].
    split; [done|].
    intros fuel Hfuel.
    assert (Hbuf : ∀ c, c ∈ column_names T →
      columns (filtered_content T pContent lits) !! c =
        Some ((λ r : Row, subscript r c)
                <$> generate T (request_of T (constraints pContent) lits))).
    { intros c Hc. unfold filtered_content. simpl.
      rewrite (fill_all_declared _ _ _ Hnodup Hc _ []); [done|].
      rewrite clear_all_lookup. by rewrite decide_True. }
    change {| row := 0 |} with {| row := Z.of_nat 0 |}.
    apply (scan_spec T (filtered_content T pContent lits)
             (generate T (request_of T (constraints pContent) lits))
             Htypes Hcols Hrows eq_refl Hbuf _ 0%nat fuel eq_refl Hfuel).
  - intros cur content. unfold xEof.
    destruct (decide (n content ≤ row cur)); split; split; (done || lia).
  - intros column_name value. unfold coerce. rewrite decide_True by done.
    simpl. split; [done|]. intros Hnul. by rewrite c_str_whole.
Qed.

Lemma iteration_yields_generated_rows_witness :
  ∃ pContent',
    xFilter Sample.T Sample.cursor Sample.created [] =
      Returned (SQLITE_OK, {| row := 0 |}, pContent') ∧
    n pContent' = 2 ∧
    scan 3 Sample.T {| row := 0 |} pContent' =
      Some (Returned
        [ [ {| rc := 0; result := Some (result_text "/bin/sh");
               diagnostics := [] |};
            {| rc := 0; result := Some (result_int 42); diagnostics := [] |};
            {| rc := 0; result := Some (result_int64 9999999999);
               diagnostics := [] |} ];
          [ {| rc := 0; result := Some (result_text ""); diagnostics := [] |};
            {| rc := 0; result := Some (result_int (-1));
               diagnostics := ["Error casting pid (abc) to INTEGER"%string] |};
            {| rc := 0; result := Some (result_int64 (-1));
               diagnostics := ["Error casting size () to BIGINT"%string] |} ] ]).
Proof.
  destruct (iteration_yields_generated_rows Sample.T Sample.cursor
              Sample.created [])
    as [(cols & cs & request & _ & Hrun) _].
  - reflexivity.
  - compute_done.
  - simpl. unfold INT_MAX. lia.
  - simpl. lia.
  - destruct Hrun as (pContent' & Hcall & Hn & Hscan).
    + simpl. unfold INT_MAX. lia.
    + exists pContent'. split; [exact Hcall|]. split; [exact Hn|].
      apply (Hscan 3%nat). simpl. lia.
Defined.

(** C1, the claim as first stated fails: a TEXT value with a NUL byte
    inside is not read as generated.  The plugin returns one row whose
    value is the three bytes '4', NUL, '2'; the iteration after the
    filter reads the one-byte text "4". *)
Lemma iteration_cuts_text_at_nul :
  (∀ request,
     generate Sample.binary request
       = [ {[ "path"%string := Sample.nul_value ]} ]) ∧
  xFilter Sample.binary Sample.cursor Sample.created [] =
    Returned (SQLITE_OK, {| row := 0 |}, Sample.binary_filtered) ∧
  scan 2 Sample.binary {| row := 0 |} Sample.binary_filtered =
    Some (Returned
            [ [ {| rc := SQLITE_OK; result := Some (result_text "4");
                   diagnostics := [] |} ] ]) ∧
  Some (result_text "4") ≠ Some (result_text Sample.nul_value).
Proof.
  split; [done|]. split; [vm_compute; reflexivity|].
  split; [vm_compute; reflexivity|]. discriminate.
Qed.

(** ** Where the adapter departs from its contract *)

(** X3. The ConstraintSet only grows: when a call of [xBestIndex] and a
    call of [xFilter] after it both return, the ConstraintSet has as many
    entries as before plus one per usable candidate; [xBestIndex] appends
    to what is there and [xFilter] keeps the number of entries. *)
Lemma constraints_accumulate (T : TablePluginT) (pCur : base_cursor)
    (pContent : osquery_table) (pIdxInfo : sqlite3_index_info)
    (argv : list sqlite3_value) code info pContent1 code' pCur' pContent2 :
  xBestIndex T pContent pIdxInfo = Returned (code, info, pContent1) →
  xFilter T pCur pContent1 argv = Returned (code', pCur', pContent2) →
  (length (constraints pContent2)
   = length (constraints pContent) + length (accepted pIdxInfo))%nat.
Proof.
  intros Hbest Hfilter.
  assert (Hgrow : ∀ l e cs l' cs',
    xBestIndex_loop T l e cs = Returned (l', cs') →
    length cs' = (length cs + length (accepted l))%nat).
  { induction l as [|[c u] l IH]; intros e cs l' cs'; simpl.
    - intros [= _ <-]. unfold accepted. simpl. lia.
    - unfold accepted. rewrite fmap_cons. simpl.
      destruct (usable c) eqn:Hu.
      + rewrite filter_cons_True by done.
        destruct (vector_at _ _) as [name0|]; [|done]. simpl.
        destruct (xBestIndex_loop T l (e + 1) _) as [[l0 cs0]|] eqn:Hl;
          [|done].
        simpl. intros [= _ <-]. apply IH in Hl. rewrite Hl.
        rewrite length_app. unfold accepted. simpl. lia.
      + rewrite filter_cons_False by (by rewrite Hu).
        destruct (xBestIndex_loop T l e cs) as [[l0 cs0]|] eqn:Hl; [|done].
        simpl. intros [= _ <-]. by apply IH in Hl. }
  assert (Hkeep : ∀ a i cs req cs' req',
    xFilter_bind a i cs req = Returned (cs', req') →
    length cs' = length cs).
  { induction a as [|v a IH]; intros i cs req cs' req'; simpl.
    - by intros [= <- _].
    - destruct v as [e|]; [|done]. simpl.
      destruct (vector_at cs (Z.of_nat i)) as [[column c]|]; [|done]. simpl.
      intros Hbind. apply IH in Hbind. by rewrite length_insert in Hbind. }
  unfold xBestIndex in Hbest.
  destruct (xBestIndex_loop T pIdxInfo 0 (constraints pContent))
    as [[l cs]|] eqn:Hloop; [|done].
  simpl in Hbest. injection Hbest as _ _ <-.
  apply Hgrow in Hloop.
  apply xFilter_inv in Hfilter as (cs2 & request & Hreq & _ & _ & ->).
  simpl. unfold xFilter_request in Hreq.
  destruct (xFilter_clear T _ _ _ _) as [[cols0 req0]|]; [|done].
  simpl in Hreq.
  destruct (xFilter_bind argv 0 cs req0) as [[cs0 req1]|] eqn:Hbind; [|done].
  simpl in Hreq. injection Hreq as _ <- _.
  apply Hkeep in Hbind. lia.
Qed.

(** C4 (the source departs from the claim).  The instance that [xCreate]
    hands out has an empty ConstraintSet.  A negotiation and execution
    for [path = '/bin/sh'] followed by a negotiation and execution for
    [pid > 5] leaves a ConstraintSet of two entries: the one of the
    earlier negotiation is still there (now carrying the literal of the
    later execution), and no call has cleared it. *)
Theorem constraints_not_cleared :
  xCreate Sample.T (Sample.env SQLITE_OK) =
    Returned {| create_rc := SQLITE_OK;
                ppVtab := Some {| pContent := Sample.created |};
                live_objects := 2 |} ∧
  constraints Sample.created = [] ∧
  ∃ info1 c1 info2 c2 c3,
    xBestIndex Sample.T Sample.created
      [Sample.candidate 0 Sample.SQLITE_INDEX_CONSTRAINT_EQ true]
      = Returned (SQLITE_OK, info1, c1) ∧
    xFilter Sample.T Sample.cursor c1 [Some "/bin/sh"%string]
      = Returned (SQLITE_OK, {| row := 0 |}, Sample.negotiated) ∧
    xBestIndex Sample.T Sample.negotiated
      [Sample.candidate 1 Sample.SQLITE_INDEX_CONSTRAINT_GT true]
      = Returned (SQLITE_OK, info2, c2) ∧
    xFilter Sample.T {| row := 2 |} c2 [Some "5"%string]
      = Returned (SQLITE_OK, {| row := 0 |}, c3) ∧
    constraints c3 =
      [("path", {| op := 2; expr := "5" |});
       ("pid", {| op := 4; expr := "" |})]%string.
Proof.
  split; [reflexivity|]. split; [reflexivity|].
  eexists _, _, _, _, _.
  split; [vm_compute; reflexivity|].
  split; [vm_compute; reflexivity|].
  split; [vm_compute; reflexivity|].
  split; vm_compute; reflexivity.
Qed.

(** C2 (the source departs from the claim).  The positions [xBestIndex]
    hands out restart at 1 in every negotiation, while the pairs go to the
    end of a ConstraintSet that still holds the earlier ones.  With the
    pair of an earlier negotiation and execution for [path = '/bin/sh']
    in place, the usable candidate [pid >] (offered after one that is not
    usable) gets
    position 1 and its pair becomes entry 1; [xFilter] writes the literal
    of position 1 into entry 0: [generate] is asked for [path = '5'] and
    for nothing on [pid], not for [pid > '5']. *)
Theorem binding_after_earlier_negotiation :
  ∃ info1 c1 info c cols request,
    xBestIndex Sample.T Sample.created
      [Sample.candidate 0 Sample.SQLITE_INDEX_CONSTRAINT_EQ true]
      = Returned (SQLITE_OK, info1, c1) ∧
    xFilter Sample.T Sample.cursor c1 [Some "/bin/sh"%string]
      = Returned (SQLITE_OK, {| row := 0 |}, Sample.negotiated) ∧
    xBestIndex Sample.T Sample.negotiated
      [Sample.candidate 2 Sample.SQLITE_INDEX_CONSTRAINT_EQ false;
       Sample.candidate 1 Sample.SQLITE_INDEX_CONSTRAINT_GT true]
      = Returned (SQLITE_OK, info, c) ∧
    info.*2 = [{| argvIndex := 0 |}; {| argvIndex := 1 |}] ∧
    constraints c =
      [("path", {| op := 2; expr := "/bin/sh" |});
       ("pid", {| op := 4; expr := "" |})]%string ∧
    xFilter_request Sample.T c [Some "5"%string]
      = Returned (cols,
                  [("path", {| op := 2; expr := "5" |});
                   ("pid", {| op := 4; expr := "" |})]%string,
                  request) ∧
    constraints_ (subscript (request_constraints request) "path")
      = [{| op := 2; expr := "5" |}] ∧
    constraints_ (subscript (request_constraints request) "pid") = [].
Proof.
  eexists _, _, _, _, _, _.
  split; [vm_compute; reflexivity|].
  split; [vm_compute; reflexivity|].
  split; [vm_compute; reflexivity|].
  split; [vm_compute; reflexivity|].
  split; [vm_compute; reflexivity|].
  split; [vm_compute; reflexivity|].
  split; vm_compute; reflexivity.
Qed.

(** [xFilter] with more arguments than the ConstraintSet has entries
    subscripts the ConstraintSet past its end. *)
Lemma xFilter_bind_past_end (T : TablePluginT) (pCur : base_cursor)
    (pContent : osquery_table) (lits : list string) :
  (length (column_names T) ≤ length (types T))%nat →
  (length (constraints pContent) < length lits)%nat →
  xFilter T pCur pContent (Some <$> lits) = UB.
Proof.
  intros Htypes Hlits.
  assert (Hbind : ∀ l pre cs req,
    (length cs < length l)%nat →
    xFilter_bind (Some <$> l) (length pre) (pre ++ cs) req = UB).
  { induction l as [|e l IH]; intros pre cs req Hlen; simpl in *; [lia|].
    destruct cs as [|[column c] cs].
    - rewrite vector_at_UB; [done|]. rewrite app_nil_r. lia.
    - rewrite (vector_at_nat _ _ (column, c))
        by apply list_lookup_middle, eq_refl.
      simpl. rewrite insert_app_r_alt by lia. rewrite Nat.sub_diag. simpl.
      rewrite (cons_middle _ pre), app_assoc.
      replace (S (length pre)) with (length (pre ++ [(column, set_expr e c)]))
        by (rewrite length_app; simpl; lia).
      apply IH. simpl in Hlen. lia. }
  rewrite xFilter_unfold. unfold xFilter_request.
  rewrite xFilter_clear_spec by (simpl; lia). simpl.
  rewrite (Hbind lits [] (constraints pContent)) by done. done.
Qed.

(** C5 (the source departs from the claim).  [xFilter] subscripts the
    ConstraintSet with the argument index without comparing it with the
    size.  One argument against the empty ConstraintSet of a new instance,
    or two against a ConstraintSet of one entry, is an access past the
    end: the call does not return [SQLITE_ERROR], it has no defined
    behaviour.  A column read past the buffer, in contrast, is checked
    and returns [SQLITE_ERROR]. *)
Theorem binding_out_of_range_unguarded :
  xFilter Sample.T Sample.cursor Sample.created [Some "5"%string] = UB ∧
  xFilter Sample.T Sample.cursor Sample.negotiated
    [Some "5"; Some "6"]%string = UB ∧
  xColumn Sample.T {| row := 2 |} Sample.filtered 0 =
    Returned ({| rc := SQLITE_ERROR; result := None; diagnostics := [] |},
              Sample.filtered).
Proof. repeat split; by vm_compute. Qed.

(** Whenever [xCreate] returns, it returns what [sqlite3_declare_vtab]
    answered, with the new instance in [*ppVtab] and both objects
    allocated: it has no return of its own for a failed allocation. *)
Lemma xCreate_returns (T : TablePluginT) (env : create_env)
    (r : create_result) :
  xCreate T env = Returned r →
  create_rc r =
    sqlite3_declare_vtab env
      (statement env (name T) (types T) (column_names T)) ∧
  (∃ n0, ppVtab r =
           Some {| pContent :=
                     {| n := n0; columns := ∅; constraints := [] |} |}) ∧
  live_objects r = 2%nat.
Proof.
  unfold xCreate. destruct (new_x_vtab env); [|done].
  destruct (new_T env) as [n0|]; [|done].
  intros [= <-]. simpl. eauto.
Qed.

(** C8 (the source departs from the claim).  When both allocations
    succeed, [xCreate] stores the new instance in [*ppVtab] and returns
    whatever [sqlite3_declare_vtab] answered: after a failed declaration
    the instance is handed out all the same and neither object has been
    released. *)
Theorem create_failure_leaves_instance :
  (∀ T n0 st declare,
     xCreate T {| new_x_vtab := true; new_T := Some n0; statement := st;
                  sqlite3_declare_vtab := declare |} =
       Returned
         {| create_rc := declare (st (name T) (types T) (column_names T));
            ppVtab :=
              Some {| pContent :=
                        {| n := n0; columns := ∅; constraints := [] |} |};
            live_objects := 2 |}) ∧
  xCreate Sample.T (Sample.env SQLITE_ERROR) =
    Returned {| create_rc := SQLITE_ERROR;
                ppVtab := Some {| pContent := Sample.created |};
                live_objects := 2 |}.
Proof. split; reflexivity. Qed.

(** * Further properties of the callbacks *)

(** ** Column reads *)

Lemma size_t_of_int_range (z : Z) : 0 ≤ size_t_of_int z < 2 ^ 64.
Proof. unfold size_t_of_int. apply Z.mod_pos_bound. lia. Qed.

(** Every way a call of [xColumn] can go. *)
Lemma xColumn_cases (T : TablePluginT) (pCur : base_cursor)
    (pContent : osquery_table) (col : Z) :
  let i := size_t_of_int col in
  let k := size_t_of_int (row pCur) in
  (Z.of_nat (length (column_names T)) ≤ i ∧
   xColumn T pCur pContent col = Returned (bounds_error, pContent)) ∨
  (∃ c, i < Z.of_nat (length (column_names T)) ∧
        column_names T !! Z.to_nat i = Some c ∧
        ((Z.of_nat (length (types T)) ≤ i ∧
          xColumn T pCur pContent col = UB) ∨
         (∃ ty, types T !! Z.to_nat i = Some ty ∧
            let pContent' :=
              set_columns (at_subscript id (columns pContent) c) pContent in
            ((Z.of_nat (length (subscript (columns pContent) c)) ≤ k ∧
              xColumn T pCur pContent col = Returned (bounds_error, pContent'))
             ∨
             (∃ v, subscript (columns pContent) c !! Z.to_nat k = Some v ∧
                   xColumn T pCur pContent col =
                     Returned (read_of ty c v, pContent')))))).
Proof.
  intros i k. subst i k.
  pose proof (size_t_of_int_range col) as Hi.
  pose proof (size_t_of_int_range (row pCur)) as Hk.
  unfold xColumn.
  remember (size_t_of_int col) as i eqn:Ei.
  remember (size_t_of_int (row pCur)) as k eqn:Ek.
  destruct (decide (Z.of_nat (length (column_names T)) ≤ i)) as [Hout|Hin].
  { left. done. }
  right.
  destruct (vector_at_in_range (column_names T) i) as (c & -> & Hc); [lia|].
  exists c. split; [lia|]. split; [done|]. simpl.
  destruct (decide (Z.of_nat (length (types T)) ≤ i)) as [Hshort|Hlong].
  { left. split; [done|]. rewrite (vector_at_UB (types T) i) by lia. done. }
  right.
  destruct (vector_at_in_range (types T) i) as (ty & -> & Hty); [lia|].
  exists ty. split; [done|]. simpl.
  rewrite subscript_at_subscript_eq. unfold id.
  destruct (decide (Z.of_nat (length (subscript (columns pContent) c)) ≤ k))
    as [Hpast|Hbefore].
  { left. done. }
  right.
  destruct (vector_at_in_range (subscript (columns pContent) c) k)
    as (v & -> & Hv); [lia|].
  exists v. split; [done|]. simpl.
  unfold read_of. by destruct (coerce ty c v).
Qed.

(** X9. [xColumn] has no defined behaviour exactly when the column index
    (as a [size_t]) is an index of [column_names] and not of [types]: the
    subscript of [types] is the only access without a check of its own.
    With at least as many types as column names every call returns,
    whatever the index and the cursor position. *)
Theorem column_read_defined (T : TablePluginT) (pCur : base_cursor)
    (pContent : osquery_table) (col : Z) :
  (xColumn T pCur pContent col = UB ↔
     size_t_of_int col < Z.of_nat (length (column_names T)) ∧
     Z.of_nat (length (types T)) ≤ size_t_of_int col) ∧
  ((length (column_names T) ≤ length (types T))%nat →
   ∃ r pContent', xColumn T pCur pContent col = Returned (r, pContent')).
Proof.
  destruct (xColumn_cases T pCur pContent col)
    as [[Hout Hcall]|(c & Hin & Hc & [[Hshort Hcall]|(ty & Hty & Hread)])].
  - rewrite Hcall. split; [split; [done|lia]|]. eauto.
  - rewrite Hcall. split; [split; [done|]|]; [done|]. lia.
  - apply lookup_lt_Some in Hty.
    destruct Hread as [[_ Hcall]|(v & _ & Hcall)]; rewrite Hcall;
      (split; [split; [done|lia]|]; eauto).
Qed.

Lemma column_read_defined_witness :
  xColumn {| name := "short"; types := ["TEXT"%string];
             column_names := ["path"; "pid"]%string;
             generate := λ _, [] |}
    Sample.cursor Sample.filtered 1 = UB ∧
  ∃ r pContent',
    xColumn Sample.T {| row := -5 |} Sample.created 12345
      = Returned (r, pContent').
Proof.
  split.
  - apply (column_read_defined
             {| name := "short"; types := ["TEXT"%string];
                column_names := ["path"; "pid"]%string;
                generate := λ _, [] |}
             Sample.cursor Sample.filtered 1).
    by vm_compute.
  - apply (column_read_defined Sample.T {| row := -5 |} Sample.created 12345).
    simpl. lia.
Defined.

(** X13. Frame and repeatability of a read.  A call of [xColumn] that
    returns answers [SQLITE_OK] or [SQLITE_ERROR], and with
    [SQLITE_ERROR] hands over no value and logs nothing.  It leaves the
    row count, the ConstraintSet and every buffered value as they were
    (all it may do to the buffer is create the empty entry of the column
    read), and the same call on the content it leaves returns the same
    read and that same content. *)
Theorem column_read_frame (T : TablePluginT) (pCur : base_cursor)
    (pContent pContent' : osquery_table) (col : Z) (r : column_read) :
  xColumn T pCur pContent col = Returned (r, pContent') →
  (rc r = SQLITE_OK ∨ r = bounds_error) ∧
  n pContent' = n pContent ∧
  constraints pContent' = constraints pContent ∧
  (∀ c, subscript (columns pContent') c = subscript (columns pContent) c) ∧
  (∀ c v, columns pContent !! c = Some v → columns pContent' !! c = Some v) ∧
  xColumn T pCur pContent' col = Returned (r, pContent').
Proof.
  intros Hcall.
  assert (Hsame : ∀ c k,
    subscript (at_subscript id (columns pContent) c) k
      = subscript (columns pContent) k).
  { intros c k. destruct (decide (c = k)) as [->|Hne].
    - by rewrite subscript_at_subscript_eq.
    - by rewrite subscript_at_subscript_ne. }
  assert (Hkeep : ∀ c k v,
    columns pContent !! k = Some v →
    at_subscript id (columns pContent) c !! k = Some v).
  { intros c k v Hv. rewrite lookup_at_subscript.
    destruct (decide (c = k)) as [->|Hne]; [|done].
    by rewrite (subscript_Some _ _ _ Hv). }
  assert (Hagain : ∀ c,
    set_columns
      (at_subscript id (at_subscript id (columns pContent) c) c)
      (set_columns (at_subscript id (columns pContent) c) pContent)
    = set_columns (at_subscript id (columns pContent) c) pContent).
  { intros c. unfold set_columns. simpl. f_equal.
    apply at_subscript_id_present. rewrite lookup_at_subscript.
    by rewrite decide_True. }
  destruct (xColumn_cases T pCur pContent col)
    as [[Hout Hfirst]|(c & Hin & Hc & [[Hshort Hfirst]|(ty & Hty & Hread)])].
  - rewrite Hfirst in Hcall. injection Hcall as <- <-.
    split; [by right|]. repeat split; auto.
  - by rewrite Hfirst in Hcall.
  - destruct (xColumn_cases T pCur pContent' col)
      as [[Hout' _]|(c' & _ & Hc' & [[Hshort' _]|(ty' & Hty' & Hread')])].
    { lia. }
    { apply lookup_lt_Some in Hty. lia. }
    rewrite Hc in Hc'. injection Hc' as <-.
    rewrite Hty in Hty'. injection Hty' as <-.
    simpl in Hread, Hread'.
    destruct Hread as [[Hpast Hfirst]|(v & Hv & Hfirst)];
      rewrite Hfirst in Hcall; injection Hcall as <- <-.
    + split; [by right|]. split; [done|]. split; [done|].
      split; [intros k0; apply Hsame|].
      split; [intros k0 v0; apply Hkeep|].
      destruct Hread' as [[_ Hsecond]|(v' & Hv' & _)].
      * rewrite Hsecond. do 2 f_equal. exact (Hagain c).
      * simpl in Hv'. rewrite Hsame in Hv'.
        apply lookup_lt_Some in Hv'. lia.
    + split; [by left|]. split; [done|]. split; [done|].
      split; [intros k0; apply Hsame|].
      split; [intros k0 v0; apply Hkeep|].
      destruct Hread' as [[Hpast' _]|(v' & Hv' & Hsecond)].
      * simpl in Hpast'. rewrite Hsame in Hpast'.
        apply lookup_lt_Some in Hv. lia.
      * simpl in Hv'. rewrite Hsame in Hv'.
        rewrite Hv in Hv'. injection Hv' as <-.
        rewrite Hsecond. do 2 f_equal. exact (Hagain c).
Qed.

Lemma column_read_frame_witness :
  (rc {| rc := SQLITE_OK; result := Some (result_int 42); diagnostics := [] |}
     = SQLITE_OK ∨
   {| rc := SQLITE_OK; result := Some (result_int 42); diagnostics := [] |}
     = bounds_error) ∧
  n Sample.filtered = n Sample.filtered ∧
  constraints Sample.filtered = constraints Sample.filtered ∧
  (∀ c, subscript (columns Sample.filtered) c
        = subscript (columns Sample.filtered) c) ∧
  (∀ c v, columns Sample.filtered !! c = Some v →
          columns Sample.filtered !! c = Some v) ∧
  xColumn Sample.T Sample.cursor Sample.filtered 1 =
    Returned ({| rc := SQLITE_OK; result := Some (result_int 42);
                 diagnostics := [] |}, Sample.filtered).
Proof.
  apply (column_read_frame Sample.T Sample.cursor Sample.filtered
           Sample.filtered 1).
  vm_compute. reflexivity.
Defined.

(** X10. Negative indices.  The comparisons of [xColumn] are made in
    [size_t]: a negative column index, or a negative cursor position on
    a declared column, compares as a number of at least 2^64 - 2^31 and is
    rejected with [SQLITE_ERROR] like any index past the end; nothing is
    read before the start of a vector. *)
Theorem column_read_negative_index (T : TablePluginT) (pCur : base_cursor)
    (pContent : osquery_table) (col : Z) :
  is_int col → is_int (row pCur) →
  Z.of_nat (length (column_names T)) ≤ INT_MAX →
  (length (column_names T) ≤ length (types T))%nat →
  (∀ c, Z.of_nat (length (subscript (columns pContent) c)) ≤ LLONG_MAX) →
  col < 0 ∨ row pCur < 0 →
  ∃ pContent',
    xColumn T pCur pContent col = Returned (bounds_error, pContent').
Proof.
  intros Hcol Hrow Hnames Htypes Hbuf Hneg.
  destruct (xColumn_cases T pCur pContent col)
    as [[_ Hcall]|(c & Hin & Hc & [[Hshort _]|(ty & _ & Hread)])].
  - eauto.
  - lia.
  - simpl in Hread. destruct Hread as [[_ Hcall]|(v & Hv & _)]; [eauto|].
    exfalso. apply lookup_lt_Some in Hv. specialize (Hbuf c).
    pose proof (size_t_of_int_range (row pCur)) as Hk.
    destruct (decide (col < 0)) as [Hc0|Hc0].
    + rewrite size_t_of_int_negative in Hin by done.
      unfold is_int, INT_MIN, INT_MAX in *. lia.
    + destruct Hneg as [?|Hr0]; [done|].
      rewrite size_t_of_int_negative in Hv, Hk by done.
      unfold is_int, INT_MIN, INT_MAX, LLONG_MAX in *. lia.
Qed.

Lemma column_read_negative_index_witness :
  (∃ pContent',
     xColumn Sample.T Sample.cursor Sample.filtered (-1)
       = Returned (bounds_error, pContent')) ∧
  (∃ pContent',
     xColumn Sample.T {| row := -1 |} Sample.filtered 0
       = Returned (bounds_error, pContent')).
Proof.
  assert (Hbuf : ∀ c,
    Z.of_nat (length (subscript (columns Sample.filtered) c)) ≤ LLONG_MAX).
  { intros c. unfold subscript.
    destruct (columns Sample.filtered !! c) as [v|] eqn:Hv;
      [|simpl; unfold LLONG_MAX; lia].
    simpl in Hv. apply lookup_insert_Some in Hv as [[_ <-]|[_ Hv]];
      [simpl; unfold LLONG_MAX; lia|].
    apply lookup_insert_Some in Hv as [[_ <-]|[_ Hv]];
      [simpl; unfold LLONG_MAX; lia|].
    apply lookup_singleton_Some in Hv as [_ <-].
    simpl. unfold LLONG_MAX. lia. }
  split.
  - apply (column_read_negative_index Sample.T Sample.cursor Sample.filtered
             (-1));
      [int_range | int_range | int_range | simpl; lia | exact Hbuf
      | left; lia].
  - apply (column_read_negative_index Sample.T {| row := -1 |} Sample.filtered
             0);
      [int_range | int_range | int_range | simpl; lia | exact Hbuf
      | right; simpl; lia].
Defined.

(** X11. A read without a buffer.  When the content has no buffer under
    the name of the column read (as on an instance that [xFilter] has not
    run on), the subscript of [columns] creates the empty buffer and the
    read is rejected with [SQLITE_ERROR], at every cursor position. *)
Theorem column_read_without_buffer (T : TablePluginT) (pCur : base_cursor)
    (pContent : osquery_table) (col : Z) (c : string) :
  is_int col → 0 ≤ col →
  (length (column_names T) ≤ length (types T))%nat →
  column_names T !! Z.to_nat col = Some c →
  columns pContent !! c = None →
  xColumn T pCur pContent col =
    Returned (bounds_error, set_columns (<[c := []]> (columns pContent)) pContent).
Proof.
  intros Hcol Hcol0 Htypes Hc Hnone.
  pose proof (size_t_of_int_range (row pCur)) as Hk.
  destruct (xColumn_cases T pCur pContent col)
    as [[Hout _]|(c' & Hin & Hc' & [[Hshort _]|(ty & _ & Hread)])];
    rewrite size_t_of_int_small in * by done.
  - apply lookup_lt_Some in Hc. lia.
  - lia.
  - rewrite Hc in Hc'. injection Hc' as <-. simpl in Hread.
    rewrite (subscript_None _ _ Hnone) in Hread.
    destruct Hread as [[_ Hcall]|(v & Hv & _)]; [|done].
    rewrite Hcall. unfold at_subscript.
    by rewrite (subscript_None _ _ Hnone).
Qed.

Lemma column_read_without_buffer_witness :
  xColumn Sample.T {| row := 0 |} Sample.created 1 =
    Returned (bounds_error,
              set_columns (<["pid"%string := []]> (columns Sample.created))
                Sample.created).
Proof.
  apply (column_read_without_buffer Sample.T {| row := 0 |} Sample.created 1
           "pid"%string).
  - int_range.
  - lia.
  - simpl. lia.
  - reflexivity.
  - reflexivity.
Defined.

(** X12. Types [xColumn] does not know.  The declared type is compared,
    letter for letter, with "TEXT", "INTEGER" and "BIGINT".  A read inside
    the buffer returns [SQLITE_OK] in every case, and it hands no value
    to the engine exactly when the declared type is none of the three
    (so also for "text"); nothing is logged then. *)
Theorem column_read_unknown_type (T : TablePluginT) (pCur : base_cursor)
    (pContent : osquery_table) (col : Z) (c type value : string) :
  is_int col → is_int (row pCur) → 0 ≤ col → 0 ≤ row pCur →
  column_names T !! Z.to_nat col = Some c →
  types T !! Z.to_nat col = Some type →
  subscript (columns pContent) c !! Z.to_nat (row pCur) = Some value →
  ∃ r pContent',
    xColumn T pCur pContent col = Returned (r, pContent') ∧
    rc r = SQLITE_OK ∧
    (result r = None ↔
       type ≠ "TEXT"%string ∧ type ≠ "INTEGER"%string ∧
       type ≠ "BIGINT"%string) ∧
    (result r = None → diagnostics r = []).
Proof.
  intros Hcol Hrow Hcol0 Hrow0 Hc Hty Hvalue.
  rewrite (xColumn_in_range T pCur pContent col c type) by done.
  simpl. rewrite Hvalue.
  eexists _, _. split; [done|]. split; [done|].
  unfold read_of, coerce.
  destruct (decide (type = "TEXT"%string)) as [->|Htext].
  { simpl. split; [|done]. split; [done|]. by intros [? _]. }
  destruct (decide (type = "INTEGER"%string)) as [->|Hinteger].
  { destruct (lexical_cast_int value); simpl;
      (split; [|done]); (split; [done|]); by intros (_ & ? & _). }
  destruct (decide (type = "BIGINT"%string)) as [->|Hbigint].
  { destruct (lexical_cast_long_long value); simpl;
      (split; [|done]); (split; [done|]); by intros (_ & _ & ?). }
  simpl. done.
Qed.

Lemma column_read_unknown_type_witness :
  ∃ r pContent',
    xColumn Sample.lowercase Sample.cursor Sample.filtered 0
      = Returned (r, pContent') ∧
    rc r = SQLITE_OK ∧ result r = None ∧ diagnostics r = [].
Proof.
  destruct (column_read_unknown_type Sample.lowercase Sample.cursor
              Sample.filtered 0 "path" "text" "/bin/sh")
    as (r & pContent' & Hcall & Hrc & Hnone & Hlog);
    try int_range; try reflexivity.
  assert (Hr : result r = None) by (apply Hnone; done).
  exists r, pContent'. split; [exact Hcall|]. split; [exact Hrc|].
  split; [exact Hr|]. exact (Hlog Hr).
Defined.

(** ** Best-index negotiation, in any state *)

Lemma positions_fst (pIdxInfo : sqlite3_index_info) :
  ∀ expr_index, (positions expr_index pIdxInfo).*1 = pIdxInfo.*1.
Proof.
  induction pIdxInfo as [|[c u] rest IH]; intros expr_index; [done|].
  simpl. destruct (usable c); simpl; by rewrite IH.
Qed.

Lemma positions_usable (pIdxInfo : sqlite3_index_info) :
  ∀ expr_index,
    argvIndex <$>
      (filter (λ p : index_constraint * index_constraint_usage,
                 usable p.1 = true) (positions expr_index pIdxInfo)).*2
    = (λ k, expr_index + Z.of_nat k) <$> seq 1 (length (accepted pIdxInfo)).
Proof.
  induction pIdxInfo as [|[c u] rest IH]; intros expr_index; [done|].
  unfold accepted. rewrite fmap_cons. simpl.
  destruct (usable c) eqn:Hu.
  - rewrite !filter_cons_True by done. simpl. rewrite IH. f_equal.
    rewrite <- (fmap_S_seq 1), <- list_fmap_compose.
    apply list_fmap_ext. intros k. simpl. lia.
  - rewrite !filter_cons_False by (simpl; by rewrite Hu). apply IH.
Qed.

Lemma positions_not_usable (pIdxInfo : sqlite3_index_info) :
  ∀ expr_index,
    filter (λ p : index_constraint * index_constraint_usage,
              usable p.1 = false) (positions expr_index pIdxInfo)
    = filter (λ p : index_constraint * index_constraint_usage,
                usable p.1 = false) pIdxInfo.
Proof.
  induction pIdxInfo as [|[c u] rest IH]; intros expr_index; [done|].
  simpl. destruct (usable c) eqn:Hu.
  - rewrite !filter_cons_False by (simpl; by rewrite Hu). apply IH.
  - rewrite !filter_cons_True by done. by rewrite IH.
Qed.

(** X1. What [xBestIndex] hands back, whatever the content.  When every
    usable candidate names a column of the schema, the call returns
    [SQLITE_OK]; the candidates come back as offered; the argument
    positions of the usable ones, read in order, are 1, 2, ..., k with k
    the number of usable candidates (contiguous from 1, as the engine
    requires); the entries of the others come back as they went in.
    The row count and the buffer are not touched and the pairs are
    appended behind whatever the ConstraintSet held.  The usage array
    does not depend on the content the call ran on. *)
Theorem best_index_positions (T : TablePluginT) (pContent : osquery_table)
    (pIdxInfo : sqlite3_index_info) :
  Forall (in_schema T) pIdxInfo →
  ∃ pIdxInfo' pContent',
    xBestIndex T pContent pIdxInfo =
      Returned (SQLITE_OK, pIdxInfo', pContent') ∧
    pIdxInfo'.*1 = pIdxInfo.*1 ∧
    argvIndex <$>
      (filter (λ p : index_constraint * index_constraint_usage,
                 usable p.1 = true) pIdxInfo').*2
      = Z.of_nat <$> seq 1 (length (accepted pIdxInfo)) ∧
    filter (λ p : index_constraint * index_constraint_usage,
              usable p.1 = false) pIdxInfo'
      = filter (λ p : index_constraint * index_constraint_usage,
                  usable p.1 = false) pIdxInfo ∧
    n pContent' = n pContent ∧
    columns pContent' = columns pContent ∧
    constraints pContent' =
      constraints pContent
        ++ ((λ c, (column_of T c, mkConstraint (Sqlite3.op c)))
              <$> accepted pIdxInfo) ∧
    ∀ other, ∃ other',
      xBestIndex T other pIdxInfo = Returned (SQLITE_OK, pIdxInfo', other').
Proof.
  intros Hschema. unfold xBestIndex.
  rewrite xBestIndex_loop_spec by done. simpl.
  eexists _, _. split; [done|].
  split; [apply positions_fst|].
  split.
  { rewrite positions_usable. apply list_fmap_ext. intros k. lia. }
  split; [apply positions_not_usable|].
  split; [done|]. split; [done|]. split; [done|].
  intros other. rewrite xBestIndex_loop_spec by done. simpl. eauto.
Qed.

Lemma best_index_positions_witness :
  ∃ pIdxInfo' pContent',
    xBestIndex Sample.T Sample.negotiated
      [Sample.candidate 1 Sample.SQLITE_INDEX_CONSTRAINT_EQ true;
       Sample.candidate (-1) Sample.SQLITE_INDEX_CONSTRAINT_EQ false;
       Sample.candidate 0 Sample.SQLITE_INDEX_CONSTRAINT_GT true]
      = Returned (SQLITE_OK, pIdxInfo', pContent') ∧
    argvIndex <$>
      (filter (λ p : index_constraint * index_constraint_usage,
                 usable p.1 = true) pIdxInfo').*2
      = [1; 2] ∧
    length (constraints pContent') = 3%nat.
Proof.
  destruct (best_index_positions Sample.T Sample.negotiated
              [Sample.candidate 1 Sample.SQLITE_INDEX_CONSTRAINT_EQ true;
               Sample.candidate (-1) Sample.SQLITE_INDEX_CONSTRAINT_EQ false;
               Sample.candidate 0 Sample.SQLITE_INDEX_CONSTRAINT_GT true])
    as (pIdxInfo' & pContent' & Hcall & _ & Hpos & _ & _ & _ & Hcs & _).
  - repeat apply Forall_cons_2; try apply Forall_nil_2;
      unfold in_schema; simpl; intros; (int_range || done).
  - exists pIdxInfo', pContent'. split; [exact Hcall|].
    split; [exact Hpos|]. rewrite Hcs. reflexivity.
Defined.

Lemma constraints_accumulate_witness :
  length (constraints Sample.renegotiated) =
    (length (constraints Sample.negotiated)
     + length (accepted
                 [Sample.candidate 1 Sample.SQLITE_INDEX_CONSTRAINT_GT true]))%nat.
Proof.
  eapply (constraints_accumulate Sample.T Sample.cursor Sample.negotiated
            [Sample.candidate 1 Sample.SQLITE_INDEX_CONSTRAINT_GT true]
            [Some "5"%string] _ _ _ SQLITE_OK {| row := 0 |}
            Sample.renegotiated).
  - vm_compute. reflexivity.
  - vm_compute. reflexivity.
Defined.

(** ** When [xFilter] returns, and what it does to the ConstraintSet *)

Lemma xFilter_clear_returns (T : TablePluginT) (names : list string) :
  ∀ i cols req r,
    xFilter_clear T names i cols req = Returned r →
    names = [] ∨ (i + length names ≤ length (types T))%nat.
Proof.
  induction names as [|a names IH]; intros i cols req r; simpl; [by left|].
  destruct (vector_at (types T) (Z.of_nat i)) as [ty|] eqn:Hty; [|done].
  apply vector_at_inv in Hty as [Hi _].
  simpl. intros Hclear. right. apply IH in Hclear as [->|Hrest]; simpl; lia.
Qed.

Lemma xFilter_bind_inv (argv : list sqlite3_value) :
  ∀ pre cs req cs' req',
    xFilter_bind argv (length pre) (pre ++ cs) req = Returned (cs', req') →
    ∃ lits,
      argv = Some <$> lits ∧ (length lits ≤ length cs)%nat ∧
      cs' = pre ++ bound cs lits ∧
      req' = add_all req (take (length lits) (bound cs lits)).
Proof.
  induction argv as [|v argv IH]; intros pre cs req cs' req'; simpl.
  - intros [= <- <-]. exists []. simpl. split; [done|]. split; [lia|].
    by destruct cs as [|[??]?].
  - destruct v as [e|]; [|done]. simpl.
    destruct cs as [|[column c] cs].
    { rewrite vector_at_UB; [done|]. rewrite app_nil_r. lia. }
    rewrite (vector_at_nat _ _ (column, c))
      by apply list_lookup_middle, eq_refl.
    simpl. rewrite insert_app_r_alt by lia. rewrite Nat.sub_diag. simpl.
    rewrite (cons_middle _ pre), app_assoc.
    replace (S (length pre)) with (length (pre ++ [(column, set_expr e c)]))
      by (rewrite length_app; simpl; lia).
    intros Hbind. apply IH in Hbind as (lits & -> & Hlen & -> & ->).
    exists (e :: lits). simpl. split; [done|]. split; [lia|].
    by rewrite <- app_assoc.
Qed.

Lemma xFilter_request_inv (T : TablePluginT) (pContent : osquery_table)
    (argv : list sqlite3_value) cols cs request :
  xFilter_request T pContent argv = Returned (cols, cs, request) →
  (length (column_names T) ≤ length (types T))%nat ∧
  ∃ lits,
    argv = Some <$> lits ∧
    (length lits ≤ length (constraints pContent))%nat ∧
    cols = clear_all (column_names T) (columns pContent) ∧
    cs = bound (constraints pContent) lits ∧
    request = request_of T (constraints pContent) lits.
Proof.
  unfold xFilter_request.
  destruct (xFilter_clear T (column_names T) 0 (columns pContent) ∅)
    as [[cols0 req0]|] eqn:Hclear; [|done].
  assert (Htypes : (0 + length (column_names T) ≤ length (types T))%nat).
  { destruct (xFilter_clear_returns _ _ _ _ _ _ Hclear) as [->|?];
      [simpl; lia|done]. }
  rewrite xFilter_clear_spec in Hclear by done.
  injection Hclear as <- <-. simpl.
  destruct (xFilter_bind argv 0 (constraints pContent) _)
    as [[cs0 req1]|] eqn:Hbind; [|done].
  simpl. intros [= <- <- <-].
  apply (xFilter_bind_inv argv []) in Hbind as (lits & -> & Hlen & -> & ->).
  split; [simpl in Htypes; lia|]. exists lits. done.
Qed.

Lemma bound_fst (cs : ConstraintSet) :
  ∀ lits, (bound cs lits).*1 = cs.*1.
Proof.
  induction cs as [|[column c] cs IH]; intros [|e lits]; simpl; try done.
  by rewrite IH.
Qed.

Lemma bound_op (cs : ConstraintSet) :
  ∀ lits, op <$> (bound cs lits).*2 = op <$> cs.*2.
Proof.
  induction cs as [|[column c] cs IH]; intros [|e lits]; simpl; try done.
  by rewrite IH.
Qed.

Lemma bound_expr (cs : ConstraintSet) :
  ∀ lits i e,
    (length lits ≤ length cs)%nat → lits !! i = Some e →
    expr <$> ((bound cs lits).*2 !! i) = Some e.
Proof.
  induction cs as [|[column c] cs IH]; intros [|e0 lits] i e Hlen Hi;
    simpl in *; try done; try lia.
  destruct i as [|i]; simpl in *.
  - by injection Hi as ->.
  - apply IH; [lia|done].
Qed.

Lemma bound_drop (cs : ConstraintSet) :
  ∀ lits, drop (length lits) (bound cs lits) = drop (length lits) cs.
Proof.
  induction cs as [|[column c] cs IH]; intros [|e lits]; simpl; try done.
Qed.

(** X4. What [xFilter] does to the ConstraintSet.  A call that returns
    was given text for every argument and no more arguments than the
    ConstraintSet has entries.  It leaves the column names and the
    operators of all entries as they were, in the same order; entry [i]
    carries argument [i] as its literal for every argument, and the
    entries behind the last argument are untouched, literal included. *)
Theorem filter_keeps_constraint_structure (T : TablePluginT)
    (pCur pCur' : base_cursor) (pContent pContent' : osquery_table)
    (argv : list sqlite3_value) (code : Z) :
  xFilter T pCur pContent argv = Returned (code, pCur', pContent') →
  ∃ lits,
    argv = Some <$> lits ∧
    (length lits ≤ length (constraints pContent))%nat ∧
    (constraints pContent').*1 = (constraints pContent).*1 ∧
    op <$> (constraints pContent').*2 = op <$> (constraints pContent).*2 ∧
    (∀ i e, lits !! i = Some e →
            expr <$> ((constraints pContent').*2 !! i) = Some e) ∧
    drop (length lits) (constraints pContent')
      = drop (length lits) (constraints pContent).
Proof.
  intros Hcall.
  apply xFilter_inv in Hcall as (cs & request & Hrequest & _ & _ & ->).
  apply xFilter_request_inv in Hrequest as (_ & lits & -> & Hlen & _ & -> & _).
  exists lits. simpl. split; [done|]. split; [done|].
  split; [apply bound_fst|]. split; [apply bound_op|].
  split; [intros i e; by apply bound_expr|]. apply bound_drop.
Qed.

Lemma filter_keeps_constraint_structure_witness :
  ∃ lits,
    [Some "5"%string] = Some <$> lits ∧
    (length lits ≤ length (constraints Sample.renegotiated))%nat ∧
    (constraints Sample.renegotiated).*1 = (constraints Sample.renegotiated).*1 ∧
    op <$> (constraints Sample.renegotiated).*2
      = op <$> (constraints Sample.renegotiated).*2 ∧
    (∀ i e, lits !! i = Some e →
            expr <$> ((constraints Sample.renegotiated).*2 !! i) = Some e) ∧
    drop (length lits) (constraints Sample.renegotiated)
      = drop (length lits) (constraints Sample.renegotiated).
Proof.
  apply (filter_keeps_constraint_structure Sample.T {| row := 1 |}
           {| row := 0 |} Sample.renegotiated Sample.renegotiated
           [Some "5"%string] SQLITE_OK).
  vm_compute. reflexivity.
Defined.

(** X5. When [xFilter] returns.  The call returns if and only if the
    schema has at least as many types as column names, every argument
    has text, there are no more arguments than entries in the
    ConstraintSet, and [generate] returns no more than [INT_MAX] rows for
    the request built; in every other case an access past the end of a
    vector, a null pointer or the overflow of the row count is reached.
    In particular one SQL NULL among the arguments is enough. *)
Theorem filter_returns_iff (T : TablePluginT) (pCur : base_cursor)
    (pContent : osquery_table) (argv : list sqlite3_value) :
  ((∃ r, xFilter T pCur pContent argv = Returned r) ↔
   (length (column_names T) ≤ length (types T))%nat ∧
   ∃ lits,
     argv = Some <$> lits ∧
     (length lits ≤ length (constraints pContent))%nat ∧
     Z.of_nat (length (generate T (request_of T (constraints pContent) lits)))
       ≤ INT_MAX) ∧
  (None ∈ argv → xFilter T pCur pContent argv = UB).
Proof.
  assert (Hforward :
    (∃ r, xFilter T pCur pContent argv = Returned r) →
    (length (column_names T) ≤ length (types T))%nat ∧
    ∃ lits,
      argv = Some <$> lits ∧
      (length lits ≤ length (constraints pContent))%nat ∧
      Z.of_nat (length (generate T (request_of T (constraints pContent) lits)))
        ≤ INT_MAX).
  { intros [r Hcall]. rewrite xFilter_unfold in Hcall.
    destruct (xFilter_request T pContent argv)
      as [[[cols cs] request]|] eqn:Hrequest; [|done].
    simpl in Hcall.
    destruct (xFilter_fill (column_names T) (generate T request) cols 0)
      as [[cols' count]|] eqn:Hfill; [|done].
    apply xFilter_request_inv in Hrequest
      as (Htypes & lits & -> & Hlen & _ & _ & ->).
    split; [done|]. exists lits. split; [done|]. split; [done|].
    apply xFilter_fill_inv in Hfill as [(_ & -> & Hmax)|(-> & _ & _)].
    - lia.
    - simpl. unfold INT_MAX. lia. }
  split; [split; [exact Hforward|]|].
  - intros (Htypes & lits & -> & Hlen & Hrows).
    eexists. by apply xFilter_spec.
  - intros Hnull.
    destruct (xFilter T pCur pContent argv) as [r|] eqn:Hcall; [|done].
    destruct Hforward as (_ & lits & -> & _); [eauto|].
    apply list_elem_of_fmap in Hnull as (e & ? & _). done.
Qed.

(** ** The request handed to [generate] *)

Lemma set_affinities_other (names : list string) (c : string) :
  c ∉ names →
  ∀ tys (req : gmap string ConstraintList),
    set_affinities names tys req !! c = req !! c.
Proof.
  intros Hc. unfold set_affinities.
  induction names as [|a names IH]; intros tys req; [done|].
  apply not_elem_of_cons in Hc as [Hne Hc].
  destruct tys as [|ty tys]; [done|]. simpl.
  rewrite IH by done. rewrite lookup_at_subscript. by rewrite decide_False.
Qed.

Lemma set_affinities_declared (names : list string) (c : string) :
  NoDup names →
  ∀ tys (req : gmap string ConstraintList) i ty,
    names !! i = Some c → tys !! i = Some ty →
    set_affinities names tys req !! c
      = Some (set_affinity ty (subscript req c)).
Proof.
  induction names as [|a names IH]; intros Hnodup tys req i ty Hc Hty;
    [done|].
  apply NoDup_cons in Hnodup as [Ha Hnodup].
  destruct tys as [|ty0 tys]; [done|].
  change (set_affinities (a :: names) (ty0 :: tys) req)
    with (set_affinities names tys (at_subscript (set_affinity ty0) req a)).
  destruct i as [|i]; simpl in Hc, Hty.
  - injection Hc as ->. injection Hty as ->.
    rewrite (set_affinities_other names c Ha tys).
    rewrite lookup_at_subscript. by rewrite decide_True.
  - assert (a ≠ c).
    { intros ->. apply Ha. by apply list_elem_of_lookup_2 in Hc. }
    rewrite (IH Hnodup tys _ i ty) by done.
    by rewrite subscript_at_subscript_ne.
Qed.

Lemma add_all_lookup (l : ConstraintSet) :
  ∀ (req : gmap string ConstraintList) (c : string),
    (is_Some (req !! c) → is_Some (add_all req l !! c)) ∧
    affinity (subscript (add_all req l) c) = affinity (subscript req c) ∧
    (req !! c = None → c ∉ l.*1 → add_all req l !! c = None).
Proof.
  induction l as [|[name0 k] l IH]; intros req c; [done|].
  unfold add_all. simpl. fold (add_all (at_subscript (add k) req name0) l).
  destruct (IH (at_subscript (add k) req name0) c) as (Hsome & Haff & Hnone).
  split; [|split].
  - intros Hc. apply Hsome. rewrite lookup_at_subscript.
    destruct (decide (name0 = c)); [done|done].
  - rewrite Haff. destruct (decide (name0 = c)) as [->|Hne].
    + by rewrite subscript_at_subscript_eq.
    + by rewrite subscript_at_subscript_ne.
  - intros Hc Hnotin. apply not_elem_of_cons in Hnotin as [Hne Hnotin].
    apply Hnone; [|done]. rewrite lookup_at_subscript.
    by rewrite decide_False.
Qed.

(** X6. The request [generate] receives.  When the declared column names
    are pairwise distinct, the request that [xFilter] builds has an entry
    for every declared column, with or without constraints on it; the
    affinity of the entry is the declared type of the column, and its
    constraints are those of the bound entries of the ConstraintSet that
    name the column, in order.  A name that is neither declared nor
    named by a bound entry has no entry. *)
Theorem request_carries_schema (T : TablePluginT) (pContent : osquery_table)
    (argv : list sqlite3_value) (cols : gmap string (list string))
    (cs : ConstraintSet) (request : QueryContext) :
  NoDup (column_names T) →
  xFilter_request T pContent argv = Returned (cols, cs, request) →
  (∀ i c ty,
     column_names T !! i = Some c → types T !! i = Some ty →
     ∃ l, request_constraints request !! c = Some l ∧
          affinity l = ty ∧
          constraints_ l =
            (filter (λ p : string * Constraint, p.1 = c)
               (take (length argv) cs)).*2) ∧
  (∀ c, c ∉ column_names T → c ∉ (take (length argv) cs).*1 →
        request_constraints request !! c = None).
Proof.
  intros Hnodup Hrequest.
  apply xFilter_request_inv in Hrequest as (_ & lits & -> & _ & _ & -> & ->).
  rewrite length_fmap. unfold request_of. simpl.
  set (base := set_affinities (column_names T) (types T) ∅).
  set (bound_entries :=
         take (length lits) (bound (constraints pContent) lits)).
  split.
  - intros i c ty Hc Hty.
    assert (Hbase : base !! c = Some (set_affinity ty (subscript ∅ c)))
      by (by apply (set_affinities_declared _ _ Hnodup _ _ i)).
    destruct (add_all_lookup bound_entries base c) as (Hsome & Haff & _).
    destruct Hsome as [l Hl]; [by rewrite Hbase|].
    exists l. split; [done|].
    rewrite <- (subscript_Some _ _ _ Hl).
    rewrite Haff, add_all_constraints.
    rewrite (subscript_Some _ _ _ Hbase). simpl. done.
  - intros c Hc Hnotin.
    destruct (add_all_lookup bound_entries base c) as (_ & _ & Hnone).
    apply Hnone; [|done]. unfold base.
    by rewrite set_affinities_other.
Qed.

Lemma request_carries_schema_witness :
  ∃ cols cs request,
    xFilter_request Sample.T Sample.renegotiated [Some "7"%string]
      = Returned (cols, cs, request) ∧
    (∃ l, request_constraints request !! "size"%string = Some l ∧
          affinity l = "BIGINT"%string ∧ constraints_ l = []) ∧
    (∃ l, request_constraints request !! "path"%string = Some l ∧
          affinity l = "TEXT"%string ∧
          constraints_ l = [{| op := 2; expr := "7" |}]) ∧
    request_constraints request !! "ppid"%string = None.
Proof.
  destruct (xFilter_request Sample.T Sample.renegotiated [Some "7"%string])
    as [[[cols cs] request]|] eqn:Hrequest; [|by vm_compute in Hrequest].
  exists cols, cs, request. split; [done|].
  destruct (request_carries_schema Sample.T Sample.renegotiated
              [Some "7"%string] cols cs request) as [Hdeclared Hother].
  - compute_done.
  - exact Hrequest.
  - vm_compute in Hrequest. injection Hrequest as _ <- _.
    split; [|split].
    + destruct (Hdeclared 2%nat "size" "BIGINT"%string eq_refl eq_refl)
        as (l & Hl & Haff & Hcs).
      exists l. split; [exact Hl|]. split; [exact Haff|]. exact Hcs.
    + destruct (Hdeclared 0%nat "path" "TEXT"%string eq_refl eq_refl)
        as (l & Hl & Haff & Hcs).
      exists l. split; [exact Hl|]. split; [exact Haff|]. exact Hcs.
    + apply Hother; compute_done.
Defined.

(** ** Executing again with other literals *)

Lemma take_bound_bound (cs : ConstraintSet) :
  ∀ l1 l2,
    take (length l2) (bound (bound cs l1) l2)
      = take (length l2) (bound cs l2).
Proof.
  induction cs as [|[column c] cs IH]; intros [|e1 l1] [|e2 l2]; simpl;
    try done.
  by rewrite IH.
Qed.

Lemma bound_bound_le (cs : ConstraintSet) :
  ∀ l1 l2,
    (length l1 ≤ length l2)%nat →
    bound (bound cs l1) l2 = bound cs l2.
Proof.
  induction cs as [|[column c] cs IH]; intros [|e1 l1] [|e2 l2] Hlen;
    simpl in *; try done; try lia.
  rewrite IH by lia. done.
Qed.

(** X7. Executing a negotiated plan again with other literals.  After an
    execution with the literals [l1], an execution with [l2] leaves the
    row count and the whole buffer that an execution with [l2] alone
    would have left, and binds the same leading entries of the
    ConstraintSet: the literals of the earlier execution reach neither
    the request nor the rows.  When [l2] has at least as many literals as
    [l1] the two contents are equal. *)
Theorem refilter_other_literals (T : TablePluginT) (pCur pCur' : base_cursor)
    (pContent : osquery_table) (l1 l2 : list string) :
  (length (column_names T) ≤ length (types T))%nat →
  (length l1 ≤ length (constraints pContent))%nat →
  (length l2 ≤ length (constraints pContent))%nat →
  Z.of_nat (length (generate T (request_of T (constraints pContent) l1)))
    ≤ INT_MAX →
  Z.of_nat (length (generate T (request_of T (constraints pContent) l2)))
    ≤ INT_MAX →
  ∃ after1 after2 after12,
    xFilter T pCur pContent (Some <$> l1)
      = Returned (SQLITE_OK, {| row := 0 |}, after1) ∧
    xFilter T pCur pContent (Some <$> l2)
      = Returned (SQLITE_OK, {| row := 0 |}, after2) ∧
    xFilter T pCur' after1 (Some <$> l2)
      = Returned (SQLITE_OK, {| row := 0 |}, after12) ∧
    n after12 = n after2 ∧
    columns after12 = columns after2 ∧
    take (length l2) (constraints after12)
      = take (length l2) (constraints after2) ∧
    ((length l1 ≤ length l2)%nat → after12 = after2).
Proof.
  intros Htypes Hl1 Hl2 Hrows1 Hrows2.
  assert (Hrequest :
    request_of T (bound (constraints pContent) l1) l2
      = request_of T (constraints pContent) l2)
    by (unfold request_of; by rewrite take_bound_bound).
  exists (filtered_content T pContent l1), (filtered_content T pContent l2),
    (filtered_content T (filtered_content T pContent l1) l2).
  split; [by apply xFilter_spec|]. split; [by apply xFilter_spec|].
  split.
  { apply xFilter_spec; [done| |].
    - simpl. by rewrite bound_length.
    - change (constraints (filtered_content T pContent l1))
        with (bound (constraints pContent) l1).
      by rewrite Hrequest. }
  unfold filtered_content. simpl. rewrite Hrequest, clear_all_fill_all.
  split; [done|]. split; [done|].
  split; [apply take_bound_bound|].
  intros Hle. by rewrite bound_bound_le.
Qed.

Lemma refilter_other_literals_witness :
  ∃ after1 after2 after12,
    xFilter Sample.T Sample.cursor Sample.renegotiated
        [Some "a"; Some "b"]%string
      = Returned (SQLITE_OK, {| row := 0 |}, after1) ∧
    xFilter Sample.T Sample.cursor Sample.renegotiated [Some "c"%string]
      = Returned (SQLITE_OK, {| row := 0 |}, after2) ∧
    xFilter Sample.T {| row := 2 |} after1 [Some "c"%string]
      = Returned (SQLITE_OK, {| row := 0 |}, after12) ∧
    n after12 = n after2 ∧
    columns after12 = columns after2 ∧
    take 1 (constraints after12) = take 1 (constraints after2).
Proof.
  destruct (refilter_other_literals Sample.T Sample.cursor {| row := 2 |}
              Sample.renegotiated ["a"; "b"]%string ["c"%string])
    as (after1 & after2 & after12 & H1 & H2 & H12 & Hn & Hcols & Hcs & _).
  - simpl. lia.
  - simpl. lia.
  - simpl. lia.
  - simpl. unfold INT_MAX. lia.
  - simpl. unfold INT_MAX. lia.
  - exists after1, after2, after12. auto 10.
Defined.

(** ** The buffer when a column name is declared more than once *)

Lemma multiplicity_cons (c a : string) (names : list string) :
  multiplicity c (a :: names) =
    if decide (a = c) then S (multiplicity c names) else multiplicity c names.
Proof.
  unfold multiplicity. destruct (decide (a = c)) as [Heq|Hne].
  - by rewrite filter_cons_True.
  - by rewrite filter_cons_False.
Qed.

Lemma push_row_length (names : list string) (r : Row) (c : string) :
  ∀ cols : gmap string (list string),
    length (subscript (push_row names r cols) c) =
      (length (subscript cols c) + multiplicity c names)%nat.
Proof.
  induction names as [|a names IH]; intros cols.
  - unfold push_row, multiplicity. simpl. lia.
  - unfold push_row. simpl.
    fold (push_row names r
            (at_subscript (λ v, v ++ [subscript r a]) cols a)).
    rewrite IH, multiplicity_cons.
    destruct (decide (a = c)) as [->|Hne].
    + rewrite subscript_at_subscript_eq, length_app. simpl. lia.
    + by rewrite subscript_at_subscript_ne.
Qed.

Lemma fill_all_length (names : list string) (rows : list Row) (c : string) :
  ∀ cols : gmap string (list string),
    length (subscript (fill_all names rows cols) c) =
      (length (subscript cols c) + length rows * multiplicity c names)%nat.
Proof.
  induction rows as [|r rows IH]; intros cols.
  - unfold fill_all. simpl. lia.
  - unfold fill_all. simpl. fold (fill_all names rows (push_row names r cols)).
    rewrite IH, push_row_length. lia.
Qed.

(** X8. The size of a buffer in general.  After every call of [xFilter]
    that returns, the buffer of a declared column holds (row count) x
    (number of times the name is declared) values: one value per row
    exactly for the names declared once.  For a name declared twice each
    row is stored twice in a row, so that position [i] of the buffer no
    longer belongs to row [i]. *)
Theorem buffer_size_by_multiplicity (T : TablePluginT)
    (pCur pCur' : base_cursor) (pContent pContent' : osquery_table)
    (argv : list sqlite3_value) (code : Z) (c : string) :
  xFilter T pCur pContent argv = Returned (code, pCur', pContent') →
  c ∈ column_names T →
  Z.of_nat (length (subscript (columns pContent') c)) =
    n pContent' * Z.of_nat (multiplicity c (column_names T)).
Proof.
  intros Hcall Hc.
  apply xFilter_inv in Hcall as (cs & request & _ & _ & _ & ->). simpl.
  rewrite fill_all_length.
  assert (Hempty :
    subscript (clear_all (column_names T) (columns pContent)) c = []).
  { apply subscript_Some. rewrite clear_all_lookup. by rewrite decide_True. }
  rewrite Hempty. simpl. lia.
Qed.

Lemma buffer_size_by_multiplicity_witness :
  Z.of_nat (length (subscript (columns Sample.repeated_filtered) "pid")) =
    n Sample.repeated_filtered
    * Z.of_nat (multiplicity "pid" (column_names Sample.repeated)) ∧
  xColumn Sample.repeated {| row := 1 |} Sample.repeated_filtered 0 =
    Returned ({| rc := SQLITE_OK; result := Some (result_int 42);
                 diagnostics := [] |}, Sample.repeated_filtered).
Proof.
  split.
  - apply (buffer_size_by_multiplicity Sample.repeated Sample.cursor
             {| row := 0 |} Sample.created Sample.repeated_filtered []
             SQLITE_OK "pid").
    + vm_compute. reflexivity.
    + compute_done.
  - vm_compute. reflexivity.
Defined.

(** ** Reading back what a filter stored *)

(** A read on the content that [xFilter] leaves for the rows [rows]. *)
Lemma xColumn_filtered (T : TablePluginT) (cols : gmap string (list string))
    (cs : ConstraintSet) (rows : list Row) (k j : nat) (c ty : string) :
  NoDup (column_names T) →
  column_names T !! j = Some c → types T !! j = Some ty →
  Z.of_nat j ≤ INT_MAX → Z.of_nat k ≤ INT_MAX →
  let content :=
    {| n := Z.of_nat (length rows);
       columns :=
         fill_all (column_names T) rows (clear_all (column_names T) cols);
       constraints := cs |} in
  xColumn T {| row := Z.of_nat k |} content (Z.of_nat j) =
    Returned (match rows !! k with
              | Some r => read_of ty c (subscript r c)
              | None => bounds_error
              end, content).
Proof.
  intros Hnodup Hc Hty Hj Hk content.
  assert (Hbuf : columns content !! c =
                 Some ((λ r : Row, subscript r c) <$> rows)).
  { simpl. rewrite (fill_all_declared _ _ _ Hnodup) with (v := []).
    - done.
    - by apply list_elem_of_lookup_2 in Hc.
    - rewrite clear_all_lookup. rewrite decide_True; [done|].
      by apply list_elem_of_lookup_2 in Hc. }
  rewrite (xColumn_in_range T {| row := Z.of_nat k |} content (Z.of_nat j)
             c ty);
    [ | int_range | int_range | lia | simpl; lia
      | by rewrite Nat2Z.id | by rewrite Nat2Z.id ].
  cbv zeta. change (row {| row := Z.of_nat k |}) with (Z.of_nat k).
  rewrite Nat2Z.id.
  rewrite at_subscript_id_present by (by rewrite Hbuf).
  rewrite set_columns_same.
  rewrite (subscript_Some _ _ _ Hbuf), list_lookup_fmap.
  by destruct (rows !! k).
Qed.

(** X14. Reads after a filter, at any position and in any order.  For a
    schema with pairwise distinct column names, after a call of [xFilter]
    that returned, a read of declared column [j] through a cursor at
    position [k] (any cursor on the table: the buffer belongs to the
    table, not to the cursor) returns what the three branches of
    [xColumn] make of the value that generated row [k] has under the name
    of column [j] (for a TEXT column the value up to its first NUL byte),
    the empty string standing in when the row has no such key; at a
    position past the last generated row it returns [SQLITE_ERROR].  The
    read leaves the content as it is. *)
Theorem read_back_after_filter (T : TablePluginT) (pCur pCur' : base_cursor)
    (pContent pContent' : osquery_table) (argv : list sqlite3_value)
    (code : Z) (k j : nat) (c ty : string) :
  NoDup (column_names T) →
  xFilter T pCur pContent argv = Returned (code, pCur', pContent') →
  column_names T !! j = Some c → types T !! j = Some ty →
  Z.of_nat j ≤ INT_MAX → Z.of_nat k ≤ INT_MAX →
  ∃ cols cs request,
    xFilter_request T pContent argv = Returned (cols, cs, request) ∧
    xColumn T {| row := Z.of_nat k |} pContent' (Z.of_nat j) =
      Returned
        (match generate T request !! k with
         | Some r => {| rc := SQLITE_OK;
                        result := (coerce ty c (default ""%string (r !! c))).1;
                        diagnostics :=
                          (coerce ty c (default ""%string (r !! c))).2 |}
         | None => bounds_error
         end,
         pContent').
Proof.
  intros Hnodup Hcall Hc Hty Hj Hk.
  apply xFilter_inv in Hcall as (cs & request & Hrequest & _ & _ & ->).
  eexists _, cs, request. split; [exact Hrequest|].
  rewrite (xColumn_filtered T (columns pContent) cs (generate T request)
             k j c ty) by done.
  by destruct (generate T request !! k).
Qed.

Lemma read_back_after_filter_witness :
  ∃ cols cs request,
    xFilter_request Sample.T Sample.created [] = Returned (cols, cs, request) ∧
    xColumn Sample.T {| row := Z.of_nat 1 |} Sample.filtered (Z.of_nat 2) =
      Returned
        (match generate Sample.T request !! 1%nat with
         | Some r =>
             {| rc := SQLITE_OK;
                result :=
                  (coerce "BIGINT" "size" (default ""%string (r !! "size"%string))).1;
                diagnostics :=
                  (coerce "BIGINT" "size" (default ""%string (r !! "size"%string))).2 |}
         | None => bounds_error
         end,
         Sample.filtered).
Proof.
  apply (read_back_after_filter Sample.T Sample.cursor {| row := 0 |}
           Sample.created Sample.filtered [] SQLITE_OK 1 2 "size" "BIGINT").
  - compute_done.
  - vm_compute. reflexivity.
  - reflexivity.
  - reflexivity.
  - int_range.
  - int_range.
Defined.

(** X15. [xEof] guards the reads.  For a schema with pairwise distinct
    column names, after a call of [xFilter] that returned, at every
    cursor position from 0 on: if [xEof] answers 0, the read of every
    declared column returns [SQLITE_OK], and if [xEof] answers 1, the
    read of every declared column returns [SQLITE_ERROR]. *)
Theorem eof_guards_reads (T : TablePluginT) (pCur pCur' : base_cursor)
    (pContent pContent' : osquery_table) (argv : list sqlite3_value)
    (code : Z) (k j : nat) (c ty : string) :
  NoDup (column_names T) →
  xFilter T pCur pContent argv = Returned (code, pCur', pContent') →
  column_names T !! j = Some c → types T !! j = Some ty →
  Z.of_nat j ≤ INT_MAX → Z.of_nat k ≤ INT_MAX →
  ∃ r,
    xColumn T {| row := Z.of_nat k |} pContent' (Z.of_nat j)
      = Returned (r, pContent') ∧
    (xEof {| row := Z.of_nat k |} pContent' = 0 → rc r = SQLITE_OK) ∧
    (xEof {| row := Z.of_nat k |} pContent' = 1 → r = bounds_error).
Proof.
  intros Hnodup Hcall Hc Hty Hj Hk.
  apply xFilter_inv in Hcall as (cs & request & _ & _ & _ & ->).
  eexists. split.
  { apply (xColumn_filtered T (columns pContent) cs (generate T request)
             k j c ty); done. }
  unfold xEof. simpl.
  destruct (generate T request !! k) as [r|] eqn:Hr.
  - apply lookup_lt_Some in Hr. split; [done|].
    rewrite decide_False by lia. done.
  - apply lookup_ge_None in Hr. split; [|done].
    rewrite decide_True by lia. done.
Qed.

Lemma eof_guards_reads_witness :
  ∃ r,
    xColumn Sample.T {| row := Z.of_nat 2 |} Sample.filtered (Z.of_nat 0)
      = Returned (r, Sample.filtered) ∧
    (xEof {| row := Z.of_nat 2 |} Sample.filtered = 0 → rc r = SQLITE_OK) ∧
    (xEof {| row := Z.of_nat 2 |} Sample.filtered = 1 → r = bounds_error).
Proof.
  apply (eof_guards_reads Sample.T Sample.cursor {| row := 0 |}
           Sample.created Sample.filtered [] SQLITE_OK 2 0 "path" "TEXT").
  - compute_done.
  - vm_compute. reflexivity.
  - reflexivity.
  - reflexivity.
  - int_range.
  - int_range.
Defined.

(** ** Planning while a cursor is open *)

(** [xColumn] looks at the buffer only. *)
Lemma xColumn_depends_on_columns (T : TablePluginT) (pCur : base_cursor)
    (s1 s2 : osquery_table) (col : Z) :
  columns s1 = columns s2 →
  match xColumn T pCur s1 col, xColumn T pCur s2 col with
  | Returned (r1, t1), Returned (r2, t2) =>
      r1 = r2 ∧ columns t1 = columns t2 ∧
      n t1 = n s1 ∧ constraints t1 = constraints s1 ∧
      n t2 = n s2 ∧ constraints t2 = constraints s2
  | UB, UB => True
  | _, _ => False
  end.
Proof.
  intros Hcols.
  destruct (xColumn_cases T pCur s1 col)
    as [[Hout H1]|(c & Hin & Hc & [[Hshort H1]|(ty & Hty & Hread)])];
  destruct (xColumn_cases T pCur s2 col)
    as [[Hout' H2]|(c' & Hin' & Hc' & [[Hshort' H2]|(ty' & Hty' & Hread')])];
    try lia;
    try (apply lookup_lt_Some in Hty; lia);
    try (apply lookup_lt_Some in Hty'; lia).
  - by rewrite H1, H2.
  - by rewrite H1, H2.
  - rewrite Hc in Hc'. injection Hc' as <-.
    rewrite Hty in Hty'. injection Hty' as <-.
    simpl in Hread, Hread'. rewrite <- Hcols in Hread'.
    destruct Hread as [[Hpast H1]|(v & Hv & H1)];
      destruct Hread' as [[Hpast' H2]|(v' & Hv' & H2)];
      rewrite H1, H2; simpl.
    + by rewrite Hcols.
    + apply lookup_lt_Some in Hv'. lia.
    + apply lookup_lt_Some in Hv. lia.
    + rewrite Hv in Hv'. injection Hv' as <-. by rewrite Hcols.
Qed.

(** X16. Planning does not disturb an iteration.  A call of [xBestIndex]
    that returns leaves the row count and the buffer as they were, so
    that for every cursor [xEof] answers as before and every column read
    returns the same result code, value and warnings as before. *)
Theorem best_index_keeps_iteration (T : TablePluginT)
    (pContent pContent' : osquery_table)
    (pIdxInfo pIdxInfo' : sqlite3_index_info) (code : Z) :
  xBestIndex T pContent pIdxInfo = Returned (code, pIdxInfo', pContent') →
  n pContent' = n pContent ∧
  columns pContent' = columns pContent ∧
  ∀ (pCur : base_cursor) (col : Z),
    xEof pCur pContent' = xEof pCur pContent ∧
    match xColumn T pCur pContent col, xColumn T pCur pContent' col with
    | Returned (r, _), Returned (r', _) => r = r'
    | UB, UB => True
    | _, _ => False
    end.
Proof.
  unfold xBestIndex.
  destruct (xBestIndex_loop T pIdxInfo 0 (constraints pContent))
    as [[info cs]|]; [|done].
  simpl. intros [= _ _ <-]. simpl.
  split; [done|]. split; [done|].
  intros pCur col. split; [done|].
  pose proof (xColumn_depends_on_columns T pCur pContent
                (set_constraints cs pContent) col eq_refl) as Hsame.
  destruct (xColumn T pCur pContent col) as [[r t]|];
    destruct (xColumn T pCur (set_constraints cs pContent) col) as [[r' t']|];
    try done.
  by destruct Hsame.
Qed.

Lemma best_index_keeps_iteration_witness :
  n (set_constraints
       [("path", {| op := 2; expr := "/bin/sh" |});
        ("pid", {| op := 4; expr := "" |})]%string Sample.negotiated)
    = n Sample.negotiated ∧
  columns (set_constraints
             [("path", {| op := 2; expr := "/bin/sh" |});
              ("pid", {| op := 4; expr := "" |})]%string Sample.negotiated)
    = columns Sample.negotiated.
Proof.
  destruct (best_index_keeps_iteration Sample.T Sample.negotiated
              (set_constraints
                 [("path", {| op := 2; expr := "/bin/sh" |});
                  ("pid", {| op := 4; expr := "" |})]%string Sample.negotiated)
              [Sample.candidate 1 Sample.SQLITE_INDEX_CONSTRAINT_GT true]
              [({| iColumn := 1; Sqlite3.op := 4; usable := true |},
                {| argvIndex := 1 |})]
              SQLITE_OK) as (Hn & Hcols & _).
  - vm_compute. reflexivity.
  - split; [exact Hn | exact Hcols].
Defined.
